(** * Synesthetic stock radar: the physics engine of [stock_physics.py]

    A shallow embedding of the mapping functions, the attraction solver and
    the position integrator, together with the properties stated for them.

    Numbers.  The Python code computes with binary64 floats.  Here every
    float is an exact rational ([Q]): the piecewise definitions, the
    comparisons and the arithmetic are those of the source, rounding is not
    modelled, and there is no infinity and no NaN.  Numeric results are
    compared with [==] ([Qeq]); fields that the code does not touch are
    compared with [=].  The two solvers compare numbers that they have just
    computed, so that the last digit of a float can decide the branch: they
    are embedded a second time, with a rounding after every operation, and
    the properties that depend on the branch are proved there, for
    the rounding [b64] of binary64 among others.

    Errors.  Python raises [ZeroDivisionError] on a float division by zero
    and [ValueError] on [math.log10] of a non-positive number or on [min] of
    an empty list.  Functions that can reach such an operation return a
    [result]; a division by a non-zero literal is written as plain [/].
    pandas and numpy do not raise on a division by zero (they produce inf
    or NaN); since [Q] has neither, the embedding treats such a division as
    [ZeroDivisionError] too, and the theorems show that it is never
    reached. *)

From Stdlib Require Import ZArith QArith Qabs Qround Qpower Lqa List String Bool PeanoNat
  Lia.
Import ListNotations.
Open Scope Q_scope.

(** ** Exceptions and results *)

Inductive pyexn : Set :=
| ZeroDivisionError
| ValueError.

Inductive result (A : Type) : Type :=
| Ok (a : A)
| Raise (e : pyexn).

Arguments Ok {A} a.
Arguments Raise {A} e.

Definition bind {A B : Type} (r : result A) (k : A -> result B) : result B :=
  match r with
  | Ok a => k a
  | Raise e => Raise e
  end.

Notation "x <- r ;; k" := (bind r (fun x => k))
  (at level 61, r at next level, right associativity).

(** [returns r q]: the call ends normally with a value equal to [q]. *)
Definition returns (r : result Q) (q : Q) : Prop :=
  exists v, r = Ok v /\ v == q.

(** ** Float primitives *)

(** [a < b] *)
Definition Qltb (a b : Q) : bool := negb (Qle_bool b a).

(** [a / b] on Python floats *)
Definition truediv (a b : Q) : result Q :=
  if Qeq_bool b 0 then Raise ZeroDivisionError else Ok (a / b).

(** [max(a, b)]: the first argument unless the second is larger *)
Definition pymax2 (a b : Q) : Q := if Qltb a b then b else a.

(** [min(a, b)]: the first argument unless the second is smaller *)
Definition pymin2 (a b : Q) : Q := if Qltb b a then b else a.

(** [min(l)] and [max(l)] on a list *)
Definition pymin (l : list Q) : result Q :=
  match l with
  | [] => Raise ValueError
  | x :: t => Ok (fold_left pymin2 t x)
  end.

Definition pymax (l : list Q) : result Q :=
  match l with
  | [] => Raise ValueError
  | x :: t => Ok (fold_left pymax2 t x)
  end.

(** ** RangeMapper: [normalize] (lines 12-17) *)

Definition normalize (value min_val max_val target_min target_max : Q)
  : result Q :=
  if Qeq_bool max_val min_val then Ok target_min
  else
    normalized <- truediv (value - min_val) (max_val - min_val) ;;
    Ok (target_min + normalized * (target_max - target_min)).

(** ** PropertyMapper: glow and opacity (lines 50-63, 97-109) *)

Definition get_glow_intensity (rule_of_40 : Q) : Q :=
  if Qle_bool 80 rule_of_40 then 1.0
  else if Qle_bool 40 rule_of_40 then 0.5 + (rule_of_40 - 40) / 80
  else if Qle_bool 0 rule_of_40 then 0.2 + (rule_of_40 / 40) * 0.3
  else 0.1.

Definition get_opacity (debt_to_equity : Q) : Q :=
  if Qle_bool debt_to_equity 0 then 1.0
  else if Qle_bool debt_to_equity 50 then 1.0
  else if Qle_bool debt_to_equity 150
       then 0.9 - (debt_to_equity - 50) / 100 * 0.3
  else pymax2 0.4 (0.6 - (debt_to_equity - 150) / 200 * 0.2).

(** ** PropertyMapper: size and pulse speed (lines 66-94) *)

(** Truth value of a list: non-empty. *)
Definition truthy {A : Type} (l : list A) : bool :=
  match l with
  | [] => false
  | _ :: _ => true
  end.

Section Log10.

(** [math.log10] on its domain, the positive numbers.  Its values are not
    rational in general, so the function is a parameter; the domain check
    of [math.log10] is modelled by [math_log10]. *)
Variable log10 : Q -> Q.

Definition math_log10 (v : Q) : result Q :=
  if Qle_bool v 0 then Raise ValueError else Ok (log10 v).

Definition get_bubble_size (market_cap : Q) (all_market_caps : list Q)
  : result Q :=
  if Qle_bool market_cap 0 then Ok 5
  else
    log_cap <- math_log10 (market_cap + 1) ;;
    min_log <- (if truthy all_market_caps
                then m <- pymin all_market_caps ;; math_log10 (m + 1)
                else Ok log_cap) ;;
    max_log <- (if truthy all_market_caps
                then m <- pymax all_market_caps ;; math_log10 (m + 1)
                else Ok log_cap) ;;
    size <- normalize log_cap min_log max_log 10 60 ;;
    Ok size.

End Log10.

Definition get_pulse_speed (volume : Q) (all_volumes : list Q) : result Q :=
  if negb (truthy all_volumes) || Qle_bool volume 0 then Ok 1.0
  else
    lo <- pymin all_volumes ;;
    hi <- pymax all_volumes ;;
    normalized <- normalize volume lo hi 0.5 3.0 ;;
    Ok normalized.

(** ** The entity collection *)

(** Input attributes of an entity, as delivered by the market-data layer. *)
Record Metrics : Type := mkMetrics {
  ticker : string;
  price : Q;
  change_pct : Q;
  week_change : Q;
  month_change : Q;
  volume : Q;
  market_cap : Q;
  operating_margin : Q;
  revenue_growth : Q;
  rule_of_40 : Q;
  pe_ratio : Q;
  beta : Q;
  volatility : Q;
  debt_to_equity : Q;
  sector : string
}.

(** A row of the data frame once the derived columns and the position have
    been added. *)
Record Row : Type := mkRow {
  metrics : Metrics;
  color : string;
  size : Q;
  glow : Q;
  opacity : Q;
  pulse_speed : Q;
  elasticity : Q;
  vx : Q;
  vy : Q;
  x : Q;
  y : Q
}.

(** A data frame is the list of its rows in index order; a series is a
    column of it. *)
Definition DataFrame : Type := list Row.
Definition Series : Type := list Q.

Definition set_vx (r : Row) (v : Q) : Row :=
  mkRow (metrics r) (color r) (size r) (glow r) (opacity r) (pulse_speed r)
        (elasticity r) v (vy r) (x r) (y r).

Definition set_vy (r : Row) (v : Q) : Row :=
  mkRow (metrics r) (color r) (size r) (glow r) (opacity r) (pulse_speed r)
        (elasticity r) (vx r) v (x r) (y r).

Definition set_x (r : Row) (v : Q) : Row :=
  mkRow (metrics r) (color r) (size r) (glow r) (opacity r) (pulse_speed r)
        (elasticity r) (vx r) (vy r) v (y r).

Definition set_y (r : Row) (v : Q) : Row :=
  mkRow (metrics r) (color r) (size r) (glow r) (opacity r) (pulse_speed r)
        (elasticity r) (vx r) (vy r) (x r) v.

(** ** Column operations of pandas *)

(** [df[c]] *)
Definition col {R A : Type} (c : R -> A) (df : list R) : list A := map c df.

(** [df[c] = s], index-aligned *)
Definition assign (set : Row -> Q -> Row) (df : DataFrame) (s : Series)
  : DataFrame :=
  map (fun rv => set (fst rv) (snd rv)) (combine df s).

(** Elementwise operation on two aligned series *)
Definition series_map2 (op : Q -> Q -> Q) (s t : Series) : Series :=
  map (fun ab => op (fst ab) (snd ab)) (combine s t).

Definition series_add : Series -> Series -> Series := series_map2 Qplus.
Definition series_mul : Series -> Series -> Series := series_map2 Qmult.

(** [s * k], [s - k] and [k - s] for a scalar [k] *)
Definition series_mul_scalar (s : Series) (k : Q) : Series :=
  map (fun a => a * k) s.
Definition series_sub_scalar (s : Series) (k : Q) : Series :=
  map (fun a => a - k) s.
Definition scalar_sub_series (k : Q) (s : Series) : Series :=
  map (fun a => k - a) s.

(** [s.apply(f)]: [f] on each element in index order; the first exception
    ends the call. *)
Fixpoint apply_series {A B : Type} (f : A -> result B) (s : list A)
  : result (list B) :=
  match s with
  | [] => Ok []
  | a :: t =>
      b <- f a ;;
      bs <- apply_series f t ;;
      Ok (b :: bs)
  end.

(** [s / k] *)
Definition series_truediv_scalar (s : Series) (k : Q) : result Series :=
  apply_series (fun a => truediv a k) s.

(** [s.min()] and [s.max()]; [None] is the NaN of an empty series. *)
Definition series_min (s : Series) : option Q :=
  match s with
  | [] => None
  | a :: t => Some (fold_left pymin2 t a)
  end.

Definition series_max (s : Series) : option Q :=
  match s with
  | [] => None
  | a :: t => Some (fold_left pymax2 t a)
  end.

(** [s.sum()] *)
Definition series_sum (s : Series) : Q := fold_left Qplus s 0.

(** [mask.sum()]: the number of [True] entries *)
Definition mask_sum (mask : list bool) : nat :=
  List.length (filter (fun b => b) mask).

(** [s[mask]] *)
Definition select {A : Type} (mask : list bool) (s : list A) : list A :=
  map snd (filter fst (combine mask s)).

(** [df.loc[mask, c] = ...]: the rows where the mask holds are rewritten by
    [f], the others are kept. *)
Definition loc_update (mask : list bool) (f : Row -> Row) (df : DataFrame)
  : DataFrame :=
  map (fun br : bool * Row => if fst br then f (snd br) else snd br)
      (combine mask df).

(** ** PropertyMapper over the collection (lines 162-163, 167, 170)

    The [size] and [pulse_speed] columns that [calculate_bubble_properties]
    computes from the [market_cap] and [volume] columns. *)

Definition size_column (log10 : Q -> Q) (df : list Metrics)
  : result Series :=
  let all_caps := col market_cap df in
  apply_series (fun c => get_bubble_size log10 c all_caps)
               (col market_cap df).

Definition pulse_speed_column (df : list Metrics) : result Series :=
  let all_volumes := col volume df in
  apply_series (fun v => get_pulse_speed v all_volumes) (col volume df).

(** ** AttractionSolver: [apply_attraction] (lines 196-232) *)

(** The mode dispatch of lines 208-217: the weighting column, or [None] for
    an unrecognized mode. *)
Definition weight_column (mode : string) : option (Row -> Q) :=
  if String.eqb mode "value" then Some (fun r => rule_of_40 (metrics r))
  else if String.eqb mode "growth"
       then Some (fun r => revenue_growth (metrics r))
  else if String.eqb mode "profit"
       then Some (fun r => operating_margin (metrics r))
  else if String.eqb mode "size" then Some (fun r => market_cap (metrics r))
  else None.

(** Line 220:
    [(weights - weights.min()) / (weights.max() - weights.min() + 0.001)].
    On an empty series the minimum and the maximum are NaN and there is no
    element to compute: the result is the empty series. *)
Definition normalize_weights (weights : Series) : result Series :=
  match series_min weights, series_max weights with
  | Some lo, Some hi =>
      series_truediv_scalar (series_sub_scalar weights lo) (hi - lo + 0.001)
  | _, _ => Ok []
  end.

(** Line 223: [weights > 0.7] *)
Definition high_value_mask (weights : Series) : list bool :=
  map (fun w => Qltb 0.7 w) weights.

Definition apply_attraction (df : DataFrame) (mode : string) (strength : Q)
  : result DataFrame :=
  match weight_column mode with
  | None => Ok df
  | Some metric =>
      weights <- normalize_weights (col metric df) ;;
      let mask := high_value_mask weights in
      if Nat.ltb 0 (mask_sum mask) then
        center_x <- truediv
                      (series_sum (series_mul (select mask (col x df))
                                              (select mask weights)))
                      (series_sum (select mask weights)) ;;
        center_y <- truediv
                      (series_sum (series_mul (select mask (col y df))
                                              (select mask weights)))
                      (series_sum (select mask weights)) ;;
        let df :=
          assign set_vx df
            (series_add (col vx df)
               (series_mul
                  (series_mul_scalar (scalar_sub_series center_x (col x df))
                                     strength)
                  (scalar_sub_series 1 weights))) in
        let df :=
          assign set_vy df
            (series_add (col vy df)
               (series_mul
                  (series_mul_scalar (scalar_sub_series center_y (col y df))
                                     strength)
                  (scalar_sub_series 1 weights))) in
        Ok df
      else Ok df
  end.

(** ** Integrator: [update_positions] (lines 235-270) *)

(** [v *= -elasticity] on one row *)
Definition bounce_vx (r : Row) : Row := set_vx r (vx r * - elasticity r).
Definition bounce_vy (r : Row) : Row := set_vy r (vy r * - elasticity r).

Definition update_positions (df : DataFrame) (time_delta : Q)
  (bounds : Q * Q * Q * Q) : DataFrame :=
  let df := assign set_x df
              (series_add (col x df)
                          (series_mul_scalar (col vx df) time_delta)) in
  let df := assign set_y df
              (series_add (col y df)
                          (series_mul_scalar (col vy df) time_delta)) in
  let '(x_min, x_max, y_min, y_max) := bounds in
  (* X bounds *)
  let df := loc_update (map (fun v => Qltb v x_min) (col x df))
                       bounce_vx df in
  let df := loc_update (map (fun v => Qltb v x_min) (col x df))
                       (fun r => set_x r x_min) df in
  let df := loc_update (map (fun v => Qltb x_max v) (col x df))
                       bounce_vx df in
  let df := loc_update (map (fun v => Qltb x_max v) (col x df))
                       (fun r => set_x r x_max) df in
  (* Y bounds *)
  let df := loc_update (map (fun v => Qltb v y_min) (col y df))
                       bounce_vy df in
  let df := loc_update (map (fun v => Qltb v y_min) (col y df))
                       (fun r => set_y r y_min) df in
  let df := loc_update (map (fun v => Qltb y_max v) (col y df))
                       bounce_vy df in
  let df := loc_update (map (fun v => Qltb y_max v) (col y df))
                       (fun r => set_y r y_max) df in
  (* damping *)
  let df := assign set_vx df (series_mul_scalar (col vx df) 0.98) in
  let df := assign set_vy df (series_mul_scalar (col vy df) 0.98) in
  df.

(** ** Row-wise reading of the two solvers

    What the column program does to one row, in the words of the design:
    the pull toward a centroid, and one integrator step. *)

(** Normalized weight of a metric value, given the collection's extremes *)
Definition norm_weight (lo hi m : Q) : Q := (m - lo) / (hi - lo + 0.001).

(** Pull of one row toward the centroid [(cx, cy)] *)
Definition pull (cx cy strength w : Q) (r : Row) : Row :=
  set_vy (set_vx r (vx r + (cx - x r) * strength * (1 - w)))
         (vy r + (cy - y r) * strength * (1 - w)).

(** Extremes of a column; the default stands for the NaN of the empty
    collection, which has no row to weigh. *)
Definition col_min (s : Series) : Q :=
  match series_min s with
  | Some v => v
  | None => 0
  end.

Definition col_max (s : Series) : Q :=
  match series_max s with
  | Some v => v
  | None => 0
  end.

(** Min-max normalized weight of a row within its collection *)
Definition weight_of (metric : Row -> Q) (df : DataFrame) (r : Row) : Q :=
  norm_weight (col_min (col metric df)) (col_max (col metric df)) (metric r).

(** The attractor set: the rows whose normalized weight exceeds 0.7 *)
Definition attractors (metric : Row -> Q) (df : DataFrame) : DataFrame :=
  filter (fun r => Qltb 0.7 (weight_of metric df r)) df.

Fixpoint Qsum (l : list Q) : Q :=
  match l with
  | [] => 0
  | a :: t => a + Qsum t
  end.

(** Weighted centroid of a coordinate over a set of rows:
    [sum (weight * position) / sum weight] *)
Definition centroid (w : Row -> Q) (pos : Row -> Q) (rows : DataFrame) : Q :=
  Qsum (map (fun r => w r * pos r) rows) / Qsum (map w rows).

(** One axis of the integrator: move, bounce on the lower bound, bounce on
    the upper bound, damp.  Returns (position, velocity). *)
Definition step_axis (p v e dt lo hi : Q) : Q * Q :=
  let p := p + v * dt in
  let v := if Qltb p lo then v * - e else v in
  let p := if Qltb p lo then lo else p in
  let v := if Qltb hi p then v * - e else v in
  let p := if Qltb hi p then hi else p in
  (p, v * 0.98).

Definition step_row (dt : Q) (bounds : Q * Q * Q * Q) (r : Row) : Row :=
  let '(x_min, x_max, y_min, y_max) := bounds in
  let px := step_axis (x r) (vx r) (elasticity r) dt x_min x_max in
  let py := step_axis (y r) (vy r) (elasticity r) dt y_min y_max in
  mkRow (metrics r) (color r) (size r) (glow r) (opacity r) (pulse_speed r)
        (elasticity r) (snd px) (snd py) (fst px) (fst py).

(** Everything of a row except its velocity *)
Definition same_but_velocity (r r' : Row) : Prop :=
  metrics r' = metrics r /\ color r' = color r /\ size r' = size r
  /\ glow r' = glow r /\ opacity r' = opacity r
  /\ pulse_speed r' = pulse_speed r /\ elasticity r' = elasticity r
  /\ x r' = x r /\ y r' = y r.

(** A position inside the bounding rectangle *)
Definition in_bounds (bounds : Q * Q * Q * Q) (r : Row) : Prop :=
  let '(x_min, x_max, y_min, y_max) := bounds in
  x_min <= x r /\ x r <= x_max /\ y_min <= y r /\ y r <= y_max.

(** ** Sample data

    The three entities of the self-test at the end of the module (lines
    278-289), and particles built on them for concrete runs. *)

Definition sample_metrics (t : string)
  (change r40 cap vol de volat growth month margin : Q) : Metrics :=
  mkMetrics t 0 change 0 month vol cap margin growth r40 0 0 volat de "".

Definition AAPL : Metrics :=
  sample_metrics "AAPL" 2.5 65 3000000000000 50000000 20 25 8 5 30.
Definition TSLA : Metrics :=
  sample_metrics "TSLA" (-3.2) 25 800000000000 120000000 150 65 45 (-10) (-5).
Definition NVDA : Metrics :=
  sample_metrics "NVDA" 5.1 90 2500000000000 30000000 30 40 60 15 55.

(** A particle with elasticity [e], velocity [(vx, vy)] and position
    [(x, y)]. *)
Definition particle (m : Metrics) (e vx0 vy0 x0 y0 : Q) : Row :=
  mkRow m "hsl(0, 50%, 60%)" 10 0.5 1.0 1.0 e vx0 vy0 x0 y0.

(** A non-decreasing step function (the binary logarithm of the integer
    part, rounded down) that stands in for [math.log10] when the size
    computation is run on concrete data. *)
Definition floor_log2 (v : Q) : Q := inject_Z (Z.log2 (Qfloor v)).

(** ** PropertyMapper: color, velocity and elasticity
    (lines 20-47, 112-143) *)

(** [get_stock_color] computes a hue, a saturation and a lightness and
    formats them as ["hsl(h, s%, l%)"].  The embedding returns the three
    numbers; the formatting of floats into text is not modelled. *)
Definition get_stock_color (change_pct rule_of_40 : Q) : Q * Q * Q :=
  let hue :=
    if Qle_bool 3 change_pct then 0
    else if Qle_bool 1 change_pct then 30
    else if Qle_bool 0 change_pct then 50
    else if Qle_bool (-1) change_pct then 180
    else if Qle_bool (-3) change_pct then 200
    else 220 in
  let saturation := pymin2 100 (pymax2 40 (50 + Qabs rule_of_40 / 2)) in
  let lightness := 60 in
  (hue, saturation, lightness).

Definition hue_of (c : Q * Q * Q) : Q := fst (fst c).
Definition saturation_of (c : Q * Q * Q) : Q := snd (fst c).
Definition lightness_of (c : Q * Q * Q) : Q := snd c.

Section Trig.

(** [math.radians], [math.cos] and [math.sin]: their values at the two
    angles used are irrational, so the functions are parameters. *)
Variable math_radians : Q -> Q.
Variable math_cos : Q -> Q.
Variable math_sin : Q -> Q.

Definition get_velocity_vector (revenue_growth momentum : Q) : Q * Q :=
  let speed := Qabs revenue_growth / 20 in
  let angle := if Qle_bool 0 revenue_growth then 45 else -135 in
  let angle_rad := math_radians angle in
  let vx := speed * math_cos angle_rad in
  let vy := speed * math_sin angle_rad in
  let vy := vy + momentum / 100 in
  (vx, vy).

End Trig.

Definition get_elasticity (volatility : Q) : Q :=
  if Qle_bool volatility 0 then 0.5
  else
    let elasticity := pymin2 1.0 (0.3 + volatility / 100) in
    elasticity.

(** ** The radar tick of [app.py] (lines 253-254)

    [render_content] applies one attraction step in value mode and one
    integrator step to the stored snapshot. *)
Definition radar_tick (df : DataFrame) : result DataFrame :=
  df <- apply_attraction df "value" 0.03 ;;
  let df := update_positions df 0.3 (5, 95, 5, 95) in
  Ok df.

(** [n] successive integrator ticks with the same step and bounds *)
Fixpoint ticks (n : nat) (df : DataFrame) (time_delta : Q)
  (bounds : Q * Q * Q * Q) : DataFrame :=
  match n with
  | O => df
  | S k => ticks k (update_positions df time_delta bounds) time_delta bounds
  end.

(** Everything of a row except its position and velocity *)
Definition same_but_motion (r r' : Row) : Prop :=
  metrics r' = metrics r /\ color r' = color r /\ size r' = size r
  /\ glow r' = glow r /\ opacity r' = opacity r
  /\ pulse_speed r' = pulse_speed r /\ elasticity r' = elasticity r.

(** ** Selections of [stock_api.py] (lines 160-196) *)

(** Stable insertion into a list sorted by decreasing key: the new element
    goes before the elements it ties with. *)
Fixpoint insert_desc {A : Type} (key : A -> Q) (a : A) (l : list A)
  : list A :=
  match l with
  | [] => [a]
  | b :: t =>
      if Qltb (key a) (key b) then b :: insert_desc key a t
      else a :: b :: t
  end.

Fixpoint sort_desc {A : Type} (key : A -> Q) (l : list A) : list A :=
  match l with
  | [] => []
  | a :: t => insert_desc key a (sort_desc key t)
  end.

(** [df.nlargest(n, c)] with the default [keep='first']: the [n] rows with
    the largest values of [c], by decreasing value, ties in index order;
    no row when [n <= 0]. *)
Definition nlargest {A : Type} (n : Z) (key : A -> Q) (df : list A)
  : list A :=
  firstn (Z.to_nat n) (sort_desc key df).

(** A list ordered by decreasing key *)
Inductive descending {A : Type} (key : A -> Q) : list A -> Prop :=
| desc_nil : descending key []
| desc_cons (a : A) (l : list A) :
    (forall b, In b l -> key b <= key a) -> descending key l ->
    descending key (a :: l).

(** The [df] argument is the snapshot; the default [None], which downloads
    one, is not modelled. *)
Definition fetch_top_gainers (df : list Metrics) (top_n : Z)
  : list Metrics :=
  nlargest top_n change_pct df.

Definition fetch_most_traded (df : list Metrics) (top_n : Z)
  : list Metrics :=
  nlargest top_n volume df.

Definition fetch_best_value_rule40 (df : list Metrics) (min_rule40 : Q)
  (top_n : Z) : list Metrics :=
  let value_stocks :=
    filter (fun m => Qle_bool min_rule40 (rule_of_40 m)) df in
  nlargest top_n rule_of_40 value_stocks.

Definition get_sector_stocks (sec : string) (df : list Metrics)
  : list Metrics :=
  filter (fun m => String.eqb (sector m) sec) df.

(** ** The volatility estimate of [fetch_market_snapshot] (lines 106-109)

    From the current price and the 52-week high and low; the rounding to
    two decimals, made when the record is built, is not part of it. *)
Definition volatility_estimate (current_price high_52w low_52w : Q)
  : result Q :=
  avg_price <- (if Qltb 0 low_52w
                then truediv (high_52w + low_52w) 2
                else Ok current_price) ;;
  if Qltb 0 avg_price
  then q <- truediv (high_52w - low_52w) avg_price ;; Ok (q * 100)
  else Ok 0.

(** ** The snapshot cache of [stock_api.py] (lines 13-15, 63-72, 150-157,
    199-204)

    The two module dictionaries are only ever used at the key
    ["market_snapshot"]; each is modelled by the entry at that key. *)
Record CacheState : Type := mkCache {
  _cache : option (list Metrics);
  _cache_timestamp : option Q
}.

Definition CACHE_DURATION : Q := 300.

Definition STOCK_TICKERS : list string :=
  [ "AAPL"; "MSFT"; "GOOGL"; "AMZN"; "META"; "NVDA"; "TSLA"; "AVGO";
    "CRM"; "ADBE"; "NOW"; "INTU"; "TEAM"; "PLTR"; "SNOW"; "DDOG";
    "AMD"; "INTC"; "QCOM"; "MU"; "AMAT"; "LRCX"; "KLAC"; "TSM";
    "JPM"; "BAC"; "GS"; "MS"; "V"; "MA"; "PYPL"; "SQ";
    "WMT"; "TGT"; "COST"; "NKE"; "SBUX"; "MCD"; "DIS"; "NFLX";
    "JNJ"; "UNH"; "PFE"; "ABBV"; "TMO"; "DHR"; "LLY"; "MRNA";
    "XOM"; "CVX"; "COP"; "SLB"; "EOG";
    "F"; "GM"; "RIVN"; "LCID";
    "SHOP"; "ETSY"; "MELI"; "SPOT";
    "BA"; "LMT"; "RTX"; "NOC";
    "ROKU"; "COIN"; "RBLX"; "U"; "DASH"; "ABNB";
    "NET"; "FSLY"; "DOCN";
    "CRWD"; "ZS"; "PANW"; "FTNT";
    "AI"; "SMCI"; "DELL" ]%string.

(** [l[:n]] *)
Definition slice_to {A : Type} (l : list A) (n : Z) : list A :=
  if (0 <=? n)%Z then firstn (Z.to_nat n) l
  else firstn (Z.to_nat (Z.of_nat (List.length l) + n)) l.

Section Snapshot.

(** The download loop of lines 79-150: the records that the market-data
    provider yields for a list of tickers. *)
Variable download : list string -> list Metrics.

(** [clock] is the value of [time.time()] at the cache check and
    [clock_after] its value when the result is stored. *)
Definition fetch_market_snapshot (clock clock_after : Q)
  (tickers : option (list string)) (max_stocks : Z) (st : CacheState)
  : list Metrics * CacheState :=
  let fetch :=
    let tickers :=
      match tickers with
      | None => slice_to STOCK_TICKERS max_stocks
      | Some t => t
      end in
    let df := download tickers in
    (df, mkCache (Some df) (Some clock_after)) in
  match _cache st, _cache_timestamp st with
  | Some cached, Some stamp =>
      if Qltb (clock - stamp) CACHE_DURATION then (cached, st) else fetch
  | _, _ => fetch
  end.

End Snapshot.

Definition clear_cache (st : CacheState) : CacheState := mkCache None None.

(** ** [app.py]: chapters and the classic chart (lines 22-41, 128-191,
    298-312) *)

Inductive chapter : Set :=
| chapter1_content
| chapter2_content
| chapter3_content.

(** [n] is the click count, [idx] the stored chapter index. *)
Definition next_chapter (n idx : Z) : chapter * Z :=
  let new_idx := ((idx + 1) mod 3)%Z in
  if (new_idx =? 0)%Z then (chapter1_content, 0%Z)
  else if (new_idx =? 1)%Z then (chapter2_content, 1%Z)
  else (chapter3_content, 2%Z).

(** [int(v)] on a float: truncation toward zero *)
Definition py_int (v : Q) : Z := Z.quot (Qnum v) (Zpos (Qden v)).

(** [list(range(a, b))] *)
Definition py_range (a b : Z) : list Z :=
  map (fun i => (a + Z.of_nat i)%Z) (seq 0 (Z.to_nat (b - a))).

(** The data series from which [create_rule40_classic] builds its figure:
    the frontier line, the intercepts shown in the hover texts and the
    marker sizes.  Texts and styling are not modelled. *)
Record Rule40Series : Type := mkRule40Series {
  x_line : list Z;
  y_line : list Q;
  intercepts : list Q;
  marker_sizes : list Q
}.

Definition create_rule40_classic (df : list Metrics) : result Rule40Series :=
  let slope := -41 / 39 in
  let intercept_line := 40 in
  let margins := col operating_margin df in
  let growths := col revenue_growth df in
  let caps := col market_cap df in
  top <- pymax margins ;;
  let x_line := py_range (-20) (py_int top + 10) in
  let y_line := map (fun v => slope * inject_Z v + intercept_line) x_line in
  let intercepts :=
    map (fun xy => snd xy - slope * fst xy) (combine margins growths) in
  let sizes := map (fun c => pymin2 60 (pymax2 10 (c / 50000000000))) caps in
  Ok (mkRule40Series x_line y_line intercepts sizes).

(** ** The solvers in binary64 arithmetic

    The two solvers compare numbers that they have just computed
    ([weights > 0.7], [x < x_min], [x > x_max]): there the last digit of a
    float decides which branch the program takes.  For the properties that
    depend on the branch, the solvers are embedded a second time with every
    arithmetic operation of the source followed by a rounding [rnd], which
    stands for the rounding of binary64 to the nearest float, and with the
    summation of a series as a parameter [fsum].  A float is a rational
    number that [rnd] leaves as it is.  With no rounding and the exact sum,
    these definitions are the ones above. *)

(** The table of the recognized modes: Rule-of-40, revenue growth,
    operating margin and market cap. *)
Definition recognized_modes : list (string * (Row -> Q)) :=
  [ ("value"%string, fun r => rule_of_40 (metrics r));
    ("growth"%string, fun r => revenue_growth (metrics r));
    ("profit"%string, fun r => operating_margin (metrics r));
    ("size"%string, fun r => market_cap (metrics r)) ].

(** Rounding to the nearest integer, ties to even *)
Definition rne (q : Q) : Z :=
  let f := Qfloor q in
  let r := q - inject_Z f in
  if Qltb r (1 # 2) then f
  else if Qltb (1 # 2) r then (f + 1)%Z
  else if Z.even f then f else (f + 1)%Z.

(** The integer [k] with [2 ^ k <= q < 2 ^ (k + 1)], for a positive [q] *)
Definition flog2 (q : Q) : Z :=
  let k := (Z.log2 (Qnum q) - Z.log2 (Zpos (Qden q)))%Z in
  if Qle_bool (2 ^ k) q then k else (k - 1)%Z.

(** Rounding to the nearest number with a 53-bit significand, ties to
    even, with no bound on the exponent: the rounding of binary64 away
    from overflow and underflow. *)
Definition b64 (q : Q) : Q :=
  if Qeq_bool q 0 then 0
  else
    let e := (flog2 (Qabs q) - 52)%Z in
    inject_Z (rne (q / 2 ^ e)) * 2 ^ e.

Section Rounded.

(** The rounding of every operation, and [Series.sum()], whose order of
    additions numpy chooses by the length of the series. *)
Variable rnd : Q -> Q.
Variable fsum : Series -> Q.

Definition fadd (a b : Q) : Q := rnd (a + b).
Definition fsub (a b : Q) : Q := rnd (a - b).
Definition fmul (a b : Q) : Q := rnd (a * b).
Definition fdiv (a b : Q) : result Q :=
  if Qeq_bool b 0 then Raise ZeroDivisionError else Ok (rnd (a / b)).

(** A decimal literal of the source *)
Definition lit (q : Q) : Q := rnd q.

(** A number that is a float *)
Definition representable (a : Q) : Prop := rnd a == a.

(** Line 220 *)
Definition normalize_weights_fl (weights : Series) : result Series :=
  match series_min weights, series_max weights with
  | Some lo, Some hi =>
      apply_series (fun a => fdiv a (fadd (fsub hi lo) (lit 0.001)))
                   (map (fun a => fsub a lo) weights)
  | _, _ => Ok []
  end.

(** Line 223 *)
Definition high_value_mask_fl (weights : Series) : list bool :=
  map (fun w => Qltb (lit 0.7) w) weights.

Definition apply_attraction_fl (df : DataFrame) (mode : string)
  (strength : Q) : result DataFrame :=
  match weight_column mode with
  | None => Ok df
  | Some metric =>
      weights <- normalize_weights_fl (col metric df) ;;
      let mask := high_value_mask_fl weights in
      if Nat.ltb 0 (mask_sum mask) then
        center_x <- fdiv
                      (fsum (series_map2 fmul (select mask (col x df))
                                              (select mask weights)))
                      (fsum (select mask weights)) ;;
        center_y <- fdiv
                      (fsum (series_map2 fmul (select mask (col y df))
                                              (select mask weights)))
                      (fsum (select mask weights)) ;;
        let df :=
          assign set_vx df
            (series_map2 fadd (col vx df)
               (series_map2 fmul
                  (map (fun a => fmul a strength)
                       (map (fun a => fsub center_x a) (col x df)))
                  (map (fun a => fsub 1 a) weights))) in
        let df :=
          assign set_vy df
            (series_map2 fadd (col vy df)
               (series_map2 fmul
                  (map (fun a => fmul a strength)
                       (map (fun a => fsub center_y a) (col y df)))
                  (map (fun a => fsub 1 a) weights))) in
        Ok df
      else Ok df
  end.

(** [v *= -elasticity] on one row; the negation is exact. *)
Definition bounce_vx_fl (r : Row) : Row :=
  set_vx r (fmul (vx r) (- elasticity r)).
Definition bounce_vy_fl (r : Row) : Row :=
  set_vy r (fmul (vy r) (- elasticity r)).

Definition update_positions_fl (df : DataFrame) (time_delta : Q)
  (bounds : Q * Q * Q * Q) : DataFrame :=
  let df := assign set_x df
              (series_map2 fadd (col x df)
                 (map (fun a => fmul a time_delta) (col vx df))) in
  let df := assign set_y df
              (series_map2 fadd (col y df)
                 (map (fun a => fmul a time_delta) (col vy df))) in
  let '(x_min, x_max, y_min, y_max) := bounds in
  (* X bounds *)
  let df := loc_update (map (fun v => Qltb v x_min) (col x df))
                       bounce_vx_fl df in
  let df := loc_update (map (fun v => Qltb v x_min) (col x df))
                       (fun r => set_x r x_min) df in
  let df := loc_update (map (fun v => Qltb x_max v) (col x df))
                       bounce_vx_fl df in
  let df := loc_update (map (fun v => Qltb x_max v) (col x df))
                       (fun r => set_x r x_max) df in
  (* Y bounds *)
  let df := loc_update (map (fun v => Qltb v y_min) (col y df))
                       bounce_vy_fl df in
  let df := loc_update (map (fun v => Qltb v y_min) (col y df))
                       (fun r => set_y r y_min) df in
  let df := loc_update (map (fun v => Qltb y_max v) (col y df))
                       bounce_vy_fl df in
  let df := loc_update (map (fun v => Qltb y_max v) (col y df))
                       (fun r => set_y r y_max) df in
  (* damping *)
  let df := assign set_vx df
              (map (fun a => fmul a (lit 0.98)) (col vx df)) in
  let df := assign set_vy df
              (map (fun a => fmul a (lit 0.98)) (col vy df)) in
  df.

(** *** Row-wise reading, with the operations of the program *)

(** The normalized weight that the program computes for a row *)
Definition weight_of_fl (metric : Row -> Q) (df : DataFrame) (r : Row) : Q :=
  rnd (fsub (metric r) (col_min (col metric df))
       / fadd (fsub (col_max (col metric df)) (col_min (col metric df)))
              (lit 0.001)).

(** The attractor set: the rows whose computed weight exceeds 0.7 *)
Definition attractors_fl (metric : Row -> Q) (df : DataFrame) : DataFrame :=
  filter (fun r => Qltb (lit 0.7) (weight_of_fl metric df r)) df.

(** The weighted centroid of a coordinate over a set of rows, as computed:
    [sum (position * weight) / sum weight] *)
Definition centroid_fl (w : Row -> Q) (pos : Row -> Q) (rows : DataFrame)
  : Q :=
  rnd (fsum (map (fun r => fmul (pos r) (w r)) rows) / fsum (map w rows)).

(** The velocity gained on one axis:
    [(centroid - position) * strength * (1 - weight)] *)
Definition pull_term (c p strength w : Q) : Q :=
  fmul (fmul (fsub c p) strength) (fsub 1 w).

Definition pull_fl (cx cy strength w : Q) (r : Row) : Row :=
  set_vy (set_vx r (fadd (vx r) (pull_term cx (x r) strength w)))
         (fadd (vy r) (pull_term cy (y r) strength w)).

(** The coordinate after the move, as computed: [p + v * time_delta] *)
Definition moved (p v dt : Q) : Q := fadd p (fmul v dt).

(** The velocity after a bounce and the damping, and after the damping
    alone *)
Definition bounced (v e : Q) : Q := fmul (fmul v (- e)) (lit 0.98).
Definition damped (v : Q) : Q := fmul v (lit 0.98).

Definition step_axis_fl (p v e dt lo hi : Q) : Q * Q :=
  let p := fadd p (fmul v dt) in
  let v := if Qltb p lo then fmul v (- e) else v in
  let p := if Qltb p lo then lo else p in
  let v := if Qltb hi p then fmul v (- e) else v in
  let p := if Qltb hi p then hi else p in
  (p, fmul v (lit 0.98)).

Definition step_row_fl (dt : Q) (bounds : Q * Q * Q * Q) (r : Row) : Row :=
  let '(x_min, x_max, y_min, y_max) := bounds in
  let px := step_axis_fl (x r) (vx r) (elasticity r) dt x_min x_max in
  let py := step_axis_fl (y r) (vy r) (elasticity r) dt y_min y_max in
  mkRow (metrics r) (color r) (size r) (glow r) (opacity r) (pulse_speed r)
        (elasticity r) (snd px) (snd py) (fst px) (fst py).

End Rounded.

(** Summation from left to right, rounding after each addition: what
    [Series.sum()] does on a series of fewer than eight floats. *)
Definition fsum_left (rnd : Q -> Q) (s : Series) : Q :=
  fold_left (fadd rnd) s 0.

(** The rounding of a positive number, with the exponent of the number
    itself *)
Definition bpos (q : Q) : Q :=
  inject_Z (rne (q / 2 ^ (flog2 q - 52))) * 2 ^ (flog2 q - 52).

(** Three particles at rest whose Rule-of-40 scores are the floats 0, 2.1
    and 2.999: the weight of the middle one is computed as
    0.7000000000000001. *)
Definition scored (t : string) (r40 : Q) : Metrics :=
  sample_metrics t 0 (b64 r40) 1000000000 1000000 0 20 0 0 0.

Definition near_threshold : DataFrame :=
  [ particle (scored "LO" 0) 0.5 0 0 10 10;
    particle (scored "MID" 2.1) 0.5 0 0 50 50;
    particle (scored "HI" 2.999) 0.5 0 0 90 90 ].

(** The three entities of the self-test, at rest *)
Definition sample_particles : DataFrame :=
  [ particle AAPL 0.55 0 0 20 30;
    particle TSLA 0.95 0 0 50 50;
    particle NVDA 0.7 0 0 80 60 ].

(** ** Basic facts about the primitives *)

Lemma Qltb_true (a b : Q) : Qltb a b = true <-> a < b.
Proof.
  unfold Qltb. rewrite negb_true_iff.
  destruct (Qle_bool b a) eqn:E.
  - apply Qle_bool_iff in E. split; [discriminate | intros H; lra].
  - split; [intros _ | reflexivity].
    destruct (Qlt_le_dec a b) as [H | H]; [exact H |].
    apply Qle_bool_iff in H. congruence.
Qed.

Lemma Qltb_false (a b : Q) : Qltb a b = false <-> b <= a.
Proof.
  unfold Qltb. rewrite negb_false_iff. apply Qle_bool_iff.
Qed.

Lemma Qle_bool_false (a b : Q) : Qle_bool a b = false <-> b < a.
Proof.
  rewrite <- Qltb_true. unfold Qltb.
  destruct (Qle_bool a b); simpl; split; congruence.
Qed.

Lemma Qeq_bool_false (a b : Q) : Qeq_bool a b = false <-> ~ a == b.
Proof.
  split; [apply Qeq_bool_neq |].
  intros H. destruct (Qeq_bool a b) eqn:E; [| reflexivity].
  apply Qeq_bool_iff in E. contradiction.
Qed.

(** Case analysis on the comparisons of the source. *)
Ltac cmp_cases :=
  repeat match goal with
  | |- context [Qle_bool ?a ?b] =>
      let E := fresh "E" in
      destruct (Qle_bool a b) eqn:E;
      [apply Qle_bool_iff in E | apply Qle_bool_false in E]
  | |- context [Qltb ?a ?b] =>
      let E := fresh "E" in
      destruct (Qltb a b) eqn:E;
      [apply Qltb_true in E | apply Qltb_false in E]
  | |- context [Qeq_bool ?a ?b] =>
      let E := fresh "E" in
      destruct (Qeq_bool a b) eqn:E;
      [apply Qeq_bool_iff in E | apply Qeq_bool_false in E]
  end.

Lemma truediv_ok (a b : Q) : ~ b == 0 -> truediv a b = Ok (a / b).
Proof.
  intros H. unfold truediv.
  apply Qeq_bool_false in H. rewrite H. reflexivity.
Qed.

(** ** RangeMapper properties *)

Lemma normalize_total (value min_val max_val target_min target_max : Q) :
  exists v, normalize value min_val max_val target_min target_max = Ok v.
Proof.
  unfold normalize. cmp_cases.
  - eexists; reflexivity.
  - rewrite truediv_ok by lra. simpl. eexists; reflexivity.
Qed.

Lemma normalize_affine (value min_val max_val target_min target_max : Q) :
  ~ max_val == min_val ->
  normalize value min_val max_val target_min target_max =
  Ok (target_min
      + (value - min_val) / (max_val - min_val) * (target_max - target_min)).
Proof.
  intros H. unfold normalize.
  apply Qeq_bool_false in H. rewrite H.
  apply Qeq_bool_false in H.
  rewrite truediv_ok by lra. reflexivity.
Qed.

(** C9. [normalize] sends the source minimum to the target minimum and,
    when the source bounds differ, the source maximum to the target
    maximum; with equal source bounds it returns the target minimum for
    every value; and it never raises. *)
Theorem normalize_endpoints (min_val max_val target_min target_max : Q) :
  (~ min_val == max_val ->
     returns (normalize min_val min_val max_val target_min target_max)
             target_min
     /\ returns (normalize max_val min_val max_val target_min target_max)
                target_max)
  /\ (forall x v, normalize x v v target_min target_max = Ok target_min)
  /\ (forall x lo hi, exists r,
        normalize x lo hi target_min target_max = Ok r).
Proof.
  split; [| split].
  - intros H. split.
    + rewrite normalize_affine by (intros E; apply H; symmetry; exact E).
      eexists; split; [reflexivity |]. field. lra.
    + rewrite normalize_affine by (intros E; apply H; symmetry; exact E).
      eexists; split; [reflexivity |]. field. lra.
  - intros x v. unfold normalize. rewrite Qeq_bool_refl. reflexivity.
  - intros x lo hi. apply normalize_total.
Qed.

Lemma normalize_endpoints_witness :
  ~ 2 == 5
  /\ returns (normalize 2 2 5 10 60) 10
  /\ returns (normalize 5 2 5 10 60) 60.
Proof.
  assert (H : ~ 2 == 5) by (intros E; discriminate E).
  split; [exact H |].
  exact (proj1 (normalize_endpoints 2 5 10 60) H).
Defined.

(** ** Glow *)

(** Division by an integer literal, as a product: the form [lra] reads. *)
Lemma Qdiv_lit (a : Q) (p : positive) : a / (Zpos p # 1) == a * (1 # p).
Proof. reflexivity. Qed.

Ltac qlra := rewrite ?Qdiv_lit; lra.

Lemma get_glow_intensity_mono (a b : Q) :
  0 <= a -> a <= b -> get_glow_intensity a <= get_glow_intensity b.
Proof.
  intros Ha Hab. unfold get_glow_intensity.
  cmp_cases; qlra.
Qed.

(** C8. Glow is non-decreasing on scores from 0 upwards, and takes the
    values 0.2, 0.5, 1.0 and 0.1 at 0, 40, 80 and -1. *)
Theorem get_glow_intensity_spec :
  (forall a b, 0 <= a -> a <= b ->
     get_glow_intensity a <= get_glow_intensity b)
  /\ get_glow_intensity 0 == 0.2
  /\ get_glow_intensity 40 == 0.5
  /\ get_glow_intensity 80 == 1.0
  /\ get_glow_intensity (-1) == 0.1.
Proof.
  split; [exact get_glow_intensity_mono |].
  repeat split; vm_compute; reflexivity.
Qed.

Lemma get_glow_intensity_spec_witness :
  0 <= 25 /\ 25 <= 65
  /\ get_glow_intensity 25 <= get_glow_intensity 65.
Proof.
  assert (H0 : 0 <= 25) by (vm_compute; discriminate).
  assert (H1 : 25 <= 65) by (vm_compute; discriminate).
  split; [exact H0 | split; [exact H1 |]].
  exact (proj1 get_glow_intensity_spec 25 65 H0 H1).
Defined.

(** ** Opacity *)

(** C3 (as stated): the listed point values of the opacity function.  The
    value claimed at 300 is not the one the code computes. *)
Lemma get_opacity_300_not_floor : ~ get_opacity 300 == 0.4.
Proof. vm_compute. discriminate. Qed.

(** C3 (amended). Opacity is 1.0 at 0 and at 50, 0.6 at 150, 0.45 at 300,
    and 0.4 (the floor) at 350 and at 1000. *)
Theorem get_opacity_points :
  get_opacity 0 == 1.0
  /\ get_opacity 50 == 1.0
  /\ get_opacity 150 == 0.6
  /\ get_opacity 300 == 0.45
  /\ get_opacity 350 == 0.4
  /\ get_opacity 1000 == 0.4.
Proof. repeat split; vm_compute; reflexivity. Qed.

(** The floor 0.4 is reached exactly from 350 upwards. *)
Lemma get_opacity_floor (d : Q) :
  350 <= d -> get_opacity d == 0.4.
Proof.
  intros H. unfold get_opacity, pymax2. cmp_cases; try qlra.
  revert E2. rewrite !Qdiv_lit. intros E2. lra.
Qed.

Lemma get_opacity_above_floor (d : Q) :
  d < 350 -> 0.4 < get_opacity d.
Proof.
  intros H. unfold get_opacity, pymax2. cmp_cases; try qlra.
  revert E2. rewrite !Qdiv_lit. intros E2. lra.
Qed.

(** ** Columns as maps over the rows *)

Lemma combine_map_same {A B C : Type} (f : A -> B) (g : A -> C)
  (l : list A) :
  combine (map f l) (map g l) = map (fun a => (f a, g a)) l.
Proof.
  induction l as [| a l IH]; simpl; [reflexivity |].
  rewrite IH. reflexivity.
Qed.

Lemma combine_self_map {A B : Type} (g : A -> B) (l : list A) :
  combine l (map g l) = map (fun a => (a, g a)) l.
Proof.
  rewrite <- (map_id l) at 1. apply combine_map_same.
Qed.

Lemma combine_map_self {A B : Type} (g : A -> B) (l : list A) :
  combine (map g l) l = map (fun a => (g a, a)) l.
Proof.
  rewrite <- (map_id l) at 2. apply (combine_map_same g (fun a => a)).
Qed.

Lemma assign_map (set : Row -> Q -> Row) (g : Row -> Q) (df : DataFrame) :
  assign set df (map g df) = map (fun r => set r (g r)) df.
Proof.
  unfold assign. rewrite combine_self_map, map_map. reflexivity.
Qed.

Lemma series_map2_map {A : Type} (op : Q -> Q -> Q) (f g : A -> Q)
  (l : list A) :
  series_map2 op (map f l) (map g l) = map (fun a => op (f a) (g a)) l.
Proof.
  unfold series_map2. rewrite combine_map_same, map_map. reflexivity.
Qed.

Lemma loc_update_map (p : Row -> bool) (f : Row -> Row) (df : DataFrame) :
  loc_update (map p df) f df = map (fun r => if p r then f r else r) df.
Proof.
  unfold loc_update. rewrite combine_map_self, map_map. reflexivity.
Qed.

Lemma select_map {A B : Type} (p : A -> bool) (f : A -> B) (l : list A) :
  select (map p l) (map f l) = map f (filter p l).
Proof.
  unfold select. rewrite combine_map_same.
  induction l as [| a l IH]; simpl; [reflexivity |].
  destruct (p a); simpl; rewrite IH; reflexivity.
Qed.

Lemma mask_sum_map {A : Type} (p : A -> bool) (l : list A) :
  mask_sum (map p l) = List.length (filter p l).
Proof.
  unfold mask_sum.
  induction l as [| a l IH]; simpl; [reflexivity |].
  destruct (p a); simpl; rewrite IH; reflexivity.
Qed.

(** The three statement shapes of the integrator, as maps over the rows. *)
Lemma assign_add_scaled (set : Row -> Q -> Row) (c c' : Row -> Q) (k : Q)
  (df : DataFrame) :
  assign set df (series_add (col c df) (series_mul_scalar (col c' df) k))
  = map (fun r => set r (c r + c' r * k)) df.
Proof.
  unfold series_add, series_mul_scalar, col.
  rewrite map_map, series_map2_map, assign_map. reflexivity.
Qed.

Lemma assign_scaled (set : Row -> Q -> Row) (c : Row -> Q) (k : Q)
  (df : DataFrame) :
  assign set df (series_mul_scalar (col c df) k)
  = map (fun r => set r (c r * k)) df.
Proof.
  unfold series_mul_scalar, col. rewrite map_map, assign_map. reflexivity.
Qed.

Lemma loc_update_col (p : Q -> bool) (c : Row -> Q) (f : Row -> Row)
  (df : DataFrame) :
  loc_update (map p (col c df)) f df
  = map (fun r => if p (c r) then f r else r) df.
Proof.
  unfold col. rewrite map_map, loc_update_map. reflexivity.
Qed.

(** ** Integrator *)

(** Enters the body of the leading [let], whose bound data frame has been
    rewritten to a map over the input rows. *)
Ltac enter_let :=
  rewrite ?map_map;
  match goal with
  | |- (let d := map ?F ?l in _) = _ =>
      let f := fresh "f" in set (f := F)
  end;
  match goal with
  | |- (let d := ?E in @?B d) = ?R => change (B E = R); cbv beta iota
  end.

(** Evaluates the stage [f] on the row [r], from the value [Eprev] of the
    stage before it; splits on the comparisons it meets. *)
Ltac use_known E :=
  repeat match type of E with
  | context [Qltb ?a ?b] =>
      match goal with
      | H : Qltb a b = _ |- _ => rewrite H in E; simpl in E
      end
  end.

Ltac split_cmp E :=
  repeat (use_known E;
          match type of E with
          | context [Qltb ?a ?b] => destruct (Qltb a b) eqn:?; simpl in E
          end);
  use_known E.

Ltac eval_first f r E :=
  pose proof (eq_refl (f r)) as E; unfold f at 2 in E; clearbody f;
  simpl in E.

Ltac eval_stage f r Eprev E :=
  pose proof (eq_refl (f r)) as E; unfold f at 2 in E; clearbody f;
  cbv beta in E; rewrite !Eprev in E; clear Eprev; simpl in E;
  split_cmp E.

(** The column program of [update_positions] performs [step_row] on every
    row, in order. *)
Lemma update_positions_rowwise (df : DataFrame) (dt : Q)
  (bounds : Q * Q * Q * Q) :
  update_positions df dt bounds = map (step_row dt bounds) df.
Proof.
  destruct bounds as [[[x_min x_max] y_min] y_max].
  cbv delta [update_positions]; cbv beta iota.
  rewrite assign_add_scaled; enter_let.
  rewrite assign_add_scaled; enter_let.
  do 8 (rewrite loc_update_col; enter_let).
  rewrite !assign_scaled, !map_map.
  match goal with
  | |- map ?F _ = _ => set (f9 := F)
  end.
  apply map_ext. intros r.
  eval_first f r E.
  eval_stage f0 r E E0.
  eval_stage f1 r E0 E1.
  all: eval_stage f2 r E1 E2.
  all: eval_stage f3 r E2 E3.
  all: eval_stage f4 r E3 E4.
  all: eval_stage f5 r E4 E5.
  all: eval_stage f6 r E5 E6.
  all: eval_stage f7 r E6 E7.
  all: eval_stage f8 r E7 E8.
  all: eval_stage f9 r E8 E11.
  all: rewrite E11; unfold step_row, step_axis; simpl.
  all: repeat match goal with
       | H : Qltb _ _ = _ |- _ => rewrite H; simpl
       end.
  all: reflexivity.
Qed.

Lemma Forall2_map_self {A B : Type} (P : A -> B -> Prop) (f : A -> B)
  (l : list A) :
  (forall a, In a l -> P a (f a)) -> Forall2 P l (map f l).
Proof.
  induction l as [| a l IH]; intros H; simpl; constructor.
  - apply H. left. reflexivity.
  - apply IH. intros b Hb. apply H. right. exact Hb.
Qed.

(** One axis: the position ends between the bounds. *)
Lemma step_axis_bounded (p v e dt lo hi : Q) :
  lo <= hi ->
  lo <= fst (step_axis p v e dt lo hi) /\ fst (step_axis p v e dt lo hi) <= hi.
Proof.
  intros H. unfold step_axis. simpl. cmp_cases; lra.
Qed.

(** One axis: with a zero time step a particle inside the bounds stays
    where it is and is only damped. *)
Lemma step_axis_still (p v e lo hi : Q) :
  lo <= p -> p <= hi ->
  fst (step_axis p v e 0 lo hi) == p
  /\ snd (step_axis p v e 0 lo hi) == v * 0.98.
Proof.
  intros Hlo Hhi. unfold step_axis. simpl.
  assert (Hp : p + v * 0 == p) by ring.
  assert (C1 : Qltb (p + v * 0) lo = false) by (apply Qltb_false; lra).
  rewrite C1.
  assert (C2 : Qltb hi (p + v * 0) = false) by (apply Qltb_false; lra).
  rewrite C2. split; [exact Hp | reflexivity].
Qed.

(** C2. After one tick every row of the collection is still there, in its
    place, and its position lies inside the bounding rectangle, whatever
    the positions and velocities were before. *)
Theorem update_positions_in_bounds (df : DataFrame)
  (time_delta x_min x_max y_min y_max : Q) :
  x_min < x_max -> y_min < y_max ->
  Forall2
    (fun r r' =>
       metrics r' = metrics r
       /\ in_bounds (x_min, x_max, y_min, y_max) r')
    df (update_positions df time_delta (x_min, x_max, y_min, y_max)).
Proof.
  intros Hx Hy. rewrite update_positions_rowwise.
  apply Forall2_map_self. intros r _.
  split; [reflexivity |].
  unfold in_bounds, step_row. simpl.
  pose proof (step_axis_bounded (x r) (vx r) (elasticity r) time_delta
                x_min x_max) as [? ?]; [lra |].
  pose proof (step_axis_bounded (y r) (vy r) (elasticity r) time_delta
                y_min y_max) as [? ?]; [lra |].
  repeat split; assumption.
Qed.

Lemma Forall2_nth_error {A B : Type} (P : A -> B -> Prop) (l : list A)
  (l' : list B) (i : nat) (a : A) :
  Forall2 P l l' -> nth_error l i = Some a ->
  exists b, nth_error l' i = Some b /\ P a b.
Proof.
  intros H. revert i. induction H as [| a0 b0 l l' Hab _ IH]; intros i Hi.
  - destruct i; discriminate Hi.
  - destruct i as [| i]; simpl in *.
    + injection Hi as <-. exists b0. split; [reflexivity | exact Hab].
    + apply IH. exact Hi.
Qed.

Lemma update_positions_in_bounds_witness :
  Forall2
    (fun r r' => metrics r' = metrics r /\ in_bounds (5, 95, 5, 95) r')
    [particle AAPL 0.55 40 (-70) 90 10; particle TSLA 0.95 (-3) 2 50 50]
    (update_positions [particle AAPL 0.55 40 (-70) 90 10;
                       particle TSLA 0.95 (-3) 2 50 50]
                      0.3 (5, 95, 5, 95)).
Proof.
  apply update_positions_in_bounds; reflexivity.
Defined.

(** C5 (as stated): a particle on the right wall with a positive [vx]
    would leave the tick with [vx] equal to [-vx * elasticity].  The tick
    also damps it. *)
Lemma bounce_is_also_damped :
  let df := [particle AAPL 0.5 2 0 95 50] in
  let out := update_positions df 0.3 (5, 95, 5, 95) in
  exists r r',
    nth_error df 0 = Some r /\ nth_error out 0 = Some r'
    /\ x r == 95 /\ 0 < vx r
    /\ x r' == 95
    /\ vx r' == -0.98
    /\ ~ vx r' == - vx r * elasticity r.
Proof.
  do 2 eexists. split; [reflexivity |]. split; [vm_compute; reflexivity |].
  repeat split; vm_compute; discriminate.
Qed.

(** C6 (as stated): with a zero time step every position would stay.  A
    particle outside the rectangle is moved onto its border. *)
Lemma zero_delta_moves_outsider :
  let df := [particle TSLA 0.95 1 1 (-5) 50] in
  let out := update_positions df 0 (0, 100, 0, 100) in
  exists r r',
    nth_error df 0 = Some r /\ nth_error out 0 = Some r'
    /\ x r' == 0 /\ ~ x r' == x r /\ ~ vx r' == vx r * 0.98.
Proof.
  do 2 eexists. split; [reflexivity |]. split; [vm_compute; reflexivity |].
  repeat split; vm_compute; discriminate.
Qed.

(** C6 (amended). With a zero time step, on each axis apart, every
    particle whose coordinate lies between the two bounds of that axis
    keeps the coordinate, and its velocity component on that axis is
    multiplied by 0.98. *)
Theorem update_positions_zero_delta (df : DataFrame)
  (x_min x_max y_min y_max : Q) :
  Forall2
    (fun r r' =>
       (x_min <= x r -> x r <= x_max ->
        x r' == x r /\ vx r' == vx r * 0.98)
       /\ (y_min <= y r -> y r <= y_max ->
           y r' == y r /\ vy r' == vy r * 0.98))
    df (update_positions df 0 (x_min, x_max, y_min, y_max)).
Proof.
  rewrite update_positions_rowwise.
  apply Forall2_map_self. intros r _.
  unfold step_row; simpl. split.
  - intros H0 H1.
    apply (step_axis_still (x r) (vx r) (elasticity r) x_min x_max);
      assumption.
  - intros H0 H1.
    apply (step_axis_still (y r) (vy r) (elasticity r) y_min y_max);
      assumption.
Qed.

Lemma update_positions_zero_delta_witness :
  exists r',
    nth_error (update_positions [particle NVDA 0.7 3 (-1) 100 120] 0
                                (0, 100, 0, 100)) 0 = Some r'
    /\ x r' == 100 /\ vx r' == 3 * 0.98.
Proof.
  destruct (Forall2_nth_error _ _ _ 0%nat (particle NVDA 0.7 3 (-1) 100 120)
              (update_positions_zero_delta
                 [particle NVDA 0.7 3 (-1) 100 120] 0 100 0 100)
              eq_refl) as [r' [Hn [H _]]].
  exists r'. split; [exact Hn |].
  apply H; vm_compute; discriminate.
Defined.

(** ** Minimum and maximum of a list *)

Lemma pymin2_le (a b : Q) : pymin2 a b <= a /\ pymin2 a b <= b.
Proof. unfold pymin2. cmp_cases; lra. Qed.

Lemma pymax2_ge (a b : Q) : a <= pymax2 a b /\ b <= pymax2 a b.
Proof. unfold pymax2. cmp_cases; lra. Qed.

Lemma pymin2_pick (a b : Q) : pymin2 a b = a \/ pymin2 a b = b.
Proof. unfold pymin2. destruct (Qltb b a); auto. Qed.

Lemma pymax2_pick (a b : Q) : pymax2 a b = a \/ pymax2 a b = b.
Proof. unfold pymax2. destruct (Qltb a b); auto. Qed.

Lemma fold_min_lower (t : list Q) (a : Q) :
  forall b, In b (a :: t) -> fold_left pymin2 t a <= b.
Proof.
  revert a. induction t as [| c t IH]; intros a b Hb; simpl in *.
  - destruct Hb as [<- | []]. lra.
  - pose proof (pymin2_le a c) as [Ha Hc].
    destruct Hb as [<- | [<- | Hb]].
    + eapply Qle_trans; [apply IH; left; reflexivity | exact Ha].
    + eapply Qle_trans; [apply IH; left; reflexivity | exact Hc].
    + apply IH. right. exact Hb.
Qed.

Lemma fold_max_upper (t : list Q) (a : Q) :
  forall b, In b (a :: t) -> b <= fold_left pymax2 t a.
Proof.
  revert a. induction t as [| c t IH]; intros a b Hb; simpl in *.
  - destruct Hb as [<- | []]. lra.
  - pose proof (pymax2_ge a c) as [Ha Hc].
    destruct Hb as [<- | [<- | Hb]].
    + eapply Qle_trans; [exact Ha | apply IH; left; reflexivity].
    + eapply Qle_trans; [exact Hc | apply IH; left; reflexivity].
    + apply IH. right. exact Hb.
Qed.

Lemma fold_min_in (t : list Q) (a : Q) : In (fold_left pymin2 t a) (a :: t).
Proof.
  revert a. induction t as [| c t IH]; intros a; simpl.
  - left. reflexivity.
  - destruct (IH (pymin2 a c)) as [H | H].
    + destruct (pymin2_pick a c) as [E | E];
        [left | right; left];
        (transitivity (pymin2 a c); [symmetry; exact E | exact H]).
    + right. right. exact H.
Qed.

Lemma fold_max_in (t : list Q) (a : Q) : In (fold_left pymax2 t a) (a :: t).
Proof.
  revert a. induction t as [| c t IH]; intros a; simpl.
  - left. reflexivity.
  - destruct (IH (pymax2 a c)) as [H | H].
    + destruct (pymax2_pick a c) as [E | E];
        [left | right; left];
        (transitivity (pymax2 a c); [symmetry; exact E | exact H]).
    + right. right. exact H.
Qed.

(** ** PropertyMapper over the collection *)

Lemma apply_series_total {A B : Type} (f : A -> result B) (P : A -> B -> Prop)
  (s : list A) :
  (forall a, In a s -> exists b, f a = Ok b /\ P a b) ->
  exists t, apply_series f s = Ok t /\ Forall2 P s t.
Proof.
  induction s as [| a s IH]; intros H; simpl.
  - exists []. split; [reflexivity | constructor].
  - destruct (H a (or_introl eq_refl)) as [b [Eb Pb]].
    destruct IH as [t [Et Pt]].
    { intros a' Ha'. apply H. right. exact Ha'. }
    rewrite Eb, Et. simpl. exists (b :: t).
    split; [reflexivity | constructor; assumption].
Qed.

Lemma get_pulse_speed_total (v : Q) (all_volumes : list Q) :
  exists s, get_pulse_speed v all_volumes = Ok s /\ (v <= 0 -> s = 1.0).
Proof.
  unfold get_pulse_speed.
  destruct all_volumes as [| a t]; simpl.
  - exists 1.0. split; reflexivity.
  - destruct (Qle_bool v 0) eqn:E.
    + exists 1.0. split; reflexivity.
    + apply Qle_bool_false in E.
      destruct (normalize_total v (fold_left pymin2 t a)
                  (fold_left pymax2 t a) 0.5 3.0) as [s Hs].
      rewrite Hs. simpl. exists s. split; [reflexivity | intros; lra].
Qed.

(** Pulse speeds are computed for every collection; an entity with a
    non-positive volume gets 1.0. *)
Lemma pulse_speed_column_total (df : list Metrics) :
  exists s, pulse_speed_column df = Ok s
            /\ Forall2 (fun m v => volume m <= 0 -> v = 1.0) df s.
Proof.
  unfold pulse_speed_column, col.
  destruct (apply_series_total
              (fun v => get_pulse_speed v (map volume df))
              (fun v s => v <= 0 -> s = 1.0) (map volume df))
    as [s [Es Ps]].
  { intros v _. apply get_pulse_speed_total. }
  exists s. split; [exact Es |].
  clear Es. revert s Ps.
  induction df as [| m df IH]; intros s Ps; inversion Ps; subst;
    constructor; auto.
Qed.

Section SizeColumn.

Variable log10 : Q -> Q.

(** [math.log10] is non-decreasing on the positive numbers. *)
Hypothesis log10_mono : forall a b, 0 < a -> a <= b -> log10 a <= log10 b.

Lemma get_bubble_size_nonpositive (cap : Q) (all_caps : list Q) :
  cap <= 0 -> get_bubble_size log10 cap all_caps = Ok 5.
Proof.
  intros H. unfold get_bubble_size.
  apply Qle_bool_iff in H. rewrite H. reflexivity.
Qed.

Lemma normalize_between (v lo hi : Q) :
  lo <= v -> v <= hi ->
  exists s, normalize v lo hi 10 60 = Ok s /\ 10 <= s /\ s <= 60.
Proof.
  intros Hlo Hhi. unfold normalize. cmp_cases.
  - exists 10. split; [reflexivity | lra].
  - rewrite truediv_ok by lra. simpl. eexists. split; [reflexivity |].
    assert (Hd : 0 < hi - lo) by lra.
    assert (H0 : 0 <= (v - lo) / (hi - lo))
      by (apply Qle_shift_div_l; lra).
    assert (H1 : (v - lo) / (hi - lo) <= 1)
      by (apply Qle_shift_div_r; lra).
    lra.
Qed.

(** A positive market cap that belongs to a list whose members all
    exceed -1 gets a size between 10 and 60. *)
Lemma get_bubble_size_positive (cap : Q) (all_caps : list Q) :
  0 < cap -> In cap all_caps -> (forall c, In c all_caps -> -1 < c) ->
  exists s, get_bubble_size log10 cap all_caps = Ok s
            /\ 10 <= s /\ s <= 60.
Proof.
  intros Hpos Hin Hdom. unfold get_bubble_size.
  apply Qle_bool_false in Hpos. rewrite Hpos.
  apply Qle_bool_false in Hpos.
  destruct all_caps as [| a t]; [destruct Hin |].
  simpl truthy. cbv iota. unfold pymin, pymax, math_log10.
  pose proof (fold_min_lower t a cap Hin) as Hmin.
  pose proof (fold_max_upper t a cap Hin) as Hmax.
  pose proof (Hdom _ (fold_min_in t a)) as Hlo.
  assert (C1 : Qle_bool (cap + 1) 0 = false)
    by (apply Qle_bool_false; lra).
  assert (C2 : Qle_bool (fold_left pymin2 t a + 1) 0 = false)
    by (apply Qle_bool_false; lra).
  assert (C3 : Qle_bool (fold_left pymax2 t a + 1) 0 = false)
    by (apply Qle_bool_false; lra).
  simpl. rewrite C1. simpl. rewrite C2. simpl. rewrite C3. simpl.
  destruct (normalize_between (log10 (cap + 1))
              (log10 (fold_left pymin2 t a + 1))
              (log10 (fold_left pymax2 t a + 1))) as [s [Es Hs]].
  - apply log10_mono; lra.
  - apply log10_mono; lra.
  - rewrite Es. simpl. exists s. split; [reflexivity | exact Hs].
Qed.

(** When every market cap exceeds -1, sizes are computed for the whole
    collection: 5 for a non-positive cap, between 10 and 60 otherwise. *)
Lemma size_column_in_domain (df : list Metrics) :
  (forall m, In m df -> -1 < market_cap m) ->
  exists s, size_column log10 df = Ok s
            /\ Forall2 (fun m v => (market_cap m <= 0 -> v = 5)
                                   /\ (0 < market_cap m ->
                                       10 <= v /\ v <= 60)) df s.
Proof.
  intros Hdom. unfold size_column, col.
  destruct (apply_series_total
              (fun c => get_bubble_size log10 c (map market_cap df))
              (fun c v => (c <= 0 -> v = 5)
                          /\ (0 < c -> 10 <= v /\ v <= 60))
              (map market_cap df)) as [s [Es Ps]].
  { intros c Hc. destruct (Qlt_le_dec 0 c) as [Hpos | Hneg].
    - destruct (get_bubble_size_positive c (map market_cap df) Hpos Hc)
        as [v [Ev Hv]].
      + intros c' Hc'. apply in_map_iff in Hc'.
        destruct Hc' as [m [<- Hm]]. apply Hdom. exact Hm.
      + exists v. split; [exact Ev |]. split; [intros; lra | auto].
    - exists 5. split; [apply get_bubble_size_nonpositive; exact Hneg |].
      split; [reflexivity | intros; lra]. }
  exists s. split; [exact Es |].
  clear Es Hdom. revert s Ps.
  induction df as [| m df IH]; intros s Ps; inversion Ps; subst;
    constructor; auto.
Qed.

End SizeColumn.

Lemma floor_log2_mono (a b : Q) :
  0 < a -> a <= b -> floor_log2 a <= floor_log2 b.
Proof.
  intros _ Hab. unfold floor_log2.
  rewrite <- Zle_Qle. apply Z.log2_le_mono.
  apply Qfloor_resp_le. exact Hab.
Qed.

(** The three sample entities, sized with the stand-in logarithm. *)
Lemma size_column_sample :
  exists s, size_column floor_log2 [AAPL; TSLA; NVDA] = Ok s
            /\ Forall2 (fun m v => (market_cap m <= 0 -> v = 5)
                                   /\ (0 < market_cap m ->
                                       10 <= v /\ v <= 60))
                       [AAPL; TSLA; NVDA] s.
Proof.
  apply (size_column_in_domain floor_log2 floor_log2_mono).
  intros m [<- | [<- | [<- | []]]]; reflexivity.
Qed.

(** C4. Sizes are to be computed for every collection, also with negative
    market caps.  On the collection below the computation raises: the
    second entity has a positive cap, and [math.log10] is applied to the
    collection minimum plus one, which is -4. *)
Theorem size_column_negative_cap_raises (log10 : Q -> Q) :
  size_column log10
    [sample_metrics "NEG" 0 0 (-5) 1000 0 0 0 0 0;
     sample_metrics "POS" 0 0 100 1000 0 0 0 0 0]
  = Raise ValueError.
Proof. reflexivity. Qed.

(** ** Sums *)

Lemma fold_left_Qplus (s : list Q) (a : Q) :
  fold_left Qplus s a == a + Qsum s.
Proof.
  revert a. induction s as [| b s IH]; intros a; simpl.
  - ring.
  - rewrite IH. ring.
Qed.

Lemma series_sum_Qsum (s : Series) : series_sum s == Qsum s.
Proof. unfold series_sum. rewrite fold_left_Qplus. ring. Qed.

Lemma Qsum_map_ext {A : Type} (f g : A -> Q) (l : list A) :
  (forall a, f a == g a) -> Qsum (map f l) == Qsum (map g l).
Proof.
  intros H. induction l as [| a l IH]; simpl; [reflexivity |].
  rewrite IH, H. reflexivity.
Qed.

Lemma Qsum_map_pos {A : Type} (f : A -> Q) (k : Q) (l : list A) :
  0 <= k -> (forall a, In a l -> k < f a) -> l <> [] ->
  0 < Qsum (map f l).
Proof.
  intros Hk H Hne.
  assert (Hnn : forall l', (forall a, In a l' -> k < f a) ->
                           0 <= Qsum (map f l')).
  { induction l' as [| a l' IH]; intros H'; simpl; [lra |].
    pose proof (H' a (or_introl eq_refl)).
    assert (0 <= Qsum (map f l'))
      by (apply IH; intros; apply H'; right; assumption).
    lra. }
  destruct l as [| a l]; [congruence |]. simpl.
  pose proof (H a (or_introl eq_refl)).
  assert (0 <= Qsum (map f l))
    by (apply Hnn; intros; apply H; right; assumption).
  lra.
Qed.

(** ** AttractionSolver *)

Lemma weight_column_recognized (mode : string) :
  (exists metric, weight_column mode = Some metric)
  <-> In mode ["value"; "growth"; "profit"; "size"]%string.
Proof.
  unfold weight_column. simpl.
  destruct (String.eqb_spec mode "value");
    [split; eauto |].
  destruct (String.eqb_spec mode "growth");
    [split; eauto |].
  destruct (String.eqb_spec mode "profit");
    [split; eauto |].
  destruct (String.eqb_spec mode "size");
    [split; eauto 6 |].
  split.
  - intros [m Hm]. discriminate Hm.
  - intros [H | [H | [H | [H | []]]]]; congruence.
Qed.

Lemma col_min_le_max (s : Series) : col_min s <= col_max s.
Proof.
  destruct s as [| a t]; unfold col_min, col_max; simpl; [lra |].
  eapply Qle_trans.
  - apply (fold_min_lower t a a). left. reflexivity.
  - apply (fold_max_upper t a a). left. reflexivity.
Qed.

Lemma col_min_in (s : Series) : s <> [] -> In (col_min s) s.
Proof.
  destruct s as [| a t]; [congruence |]. intros _.
  unfold col_min. simpl. apply fold_min_in.
Qed.

Lemma series_truediv_scalar_ok (s : Series) (d : Q) :
  ~ d == 0 -> series_truediv_scalar s d = Ok (map (fun a => a / d) s).
Proof.
  intros Hd. unfold series_truediv_scalar.
  induction s as [| a s IH]; simpl; [reflexivity |].
  rewrite truediv_ok by exact Hd. simpl. rewrite IH. reflexivity.
Qed.

(** Line 220 never divides by zero: the denominator is at least 0.001. *)
Lemma normalize_weights_ok (s : Series) :
  normalize_weights s = Ok (map (norm_weight (col_min s) (col_max s)) s).
Proof.
  pose proof (col_min_le_max s) as Hle.
  destruct s as [| a t]; [reflexivity |].
  unfold normalize_weights, col_min, col_max in *. simpl series_min in *.
  simpl series_max in *. cbv iota in *.
  rewrite series_truediv_scalar_ok by lra.
  unfold series_sub_scalar. rewrite map_map. reflexivity.
Qed.

Lemma assign_map_gen {A : Type} (set : Row -> Q -> Row) (h : A -> Row)
  (g : A -> Q) (l : list A) :
  assign set (map h l) (map g l) = map (fun a => set (h a) (g a)) l.
Proof.
  unfold assign. rewrite combine_map_same, map_map. reflexivity.
Qed.

(** The two assignments of lines 229-230 perform [pull] on every row. *)
Lemma pull_rowwise (df : DataFrame) (w : Row -> Q) (cx cy strength : Q) :
  assign set_vy
    (assign set_vx df
       (series_add (col vx df)
          (series_mul
             (series_mul_scalar (scalar_sub_series cx (col x df)) strength)
             (scalar_sub_series 1 (map w df)))))
    (series_add
       (col vy
          (assign set_vx df
             (series_add (col vx df)
                (series_mul
                   (series_mul_scalar (scalar_sub_series cx (col x df))
                                      strength)
                   (scalar_sub_series 1 (map w df))))))
       (series_mul
          (series_mul_scalar
             (scalar_sub_series cy
                (col y
                   (assign set_vx df
                      (series_add (col vx df)
                         (series_mul
                            (series_mul_scalar
                               (scalar_sub_series cx (col x df)) strength)
                            (scalar_sub_series 1 (map w df)))))))
             strength)
          (scalar_sub_series 1 (map w df))))
  = map (fun r => pull cx cy strength (w r) r) df.
Proof.
  unfold col, series_add, series_mul, series_mul_scalar, scalar_sub_series.
  rewrite !map_map, !series_map2_map, assign_map.
  rewrite !map_map, !series_map2_map, assign_map_gen.
  reflexivity.
Qed.

(** The code's centre of mass over a set of rows, and its agreement with
    the weighted centroid. *)
Lemma center_is_centroid (w pos : Row -> Q) (rows : DataFrame) :
  series_sum (series_mul (map pos rows) (map w rows))
  / series_sum (map w rows)
  == centroid w pos rows.
Proof.
  unfold centroid, series_mul.
  rewrite series_map2_map, !series_sum_Qsum.
  rewrite (Qsum_map_ext (fun r => pos r * w r) (fun r => w r * pos r))
    by (intros; ring).
  reflexivity.
Qed.

Lemma attractors_weight_sum_pos (metric : Row -> Q) (df : DataFrame) :
  attractors metric df <> [] ->
  ~ series_sum (map (weight_of metric df) (attractors metric df)) == 0.
Proof.
  intros Hne. rewrite series_sum_Qsum.
  assert (H : 0 < Qsum (map (weight_of metric df) (attractors metric df))).
  { apply (Qsum_map_pos _ 0.7); [lra | | exact Hne].
    intros r Hr. apply filter_In in Hr. destruct Hr as [_ Hr].
    apply Qltb_true in Hr. exact Hr. }
  lra.
Qed.

(** What [apply_attraction] returns for a recognized mode. *)
Lemma apply_attraction_rowwise (df : DataFrame) (mode : string)
  (strength : Q) (metric : Row -> Q) :
  weight_column mode = Some metric ->
  (attractors metric df = [] /\ apply_attraction df mode strength = Ok df)
  \/ (attractors metric df <> []
      /\ exists cx cy,
           cx == centroid (weight_of metric df) x (attractors metric df)
           /\ cy == centroid (weight_of metric df) y (attractors metric df)
           /\ apply_attraction df mode strength
              = Ok (map (fun r => pull cx cy strength
                                       (weight_of metric df r) r) df)).
Proof.
  intros Hmode. unfold apply_attraction. rewrite Hmode.
  rewrite normalize_weights_ok.
  assert (EW : map (norm_weight (col_min (col metric df))
                                (col_max (col metric df))) (col metric df)
               = map (weight_of metric df) df)
    by (unfold col; rewrite map_map; reflexivity).
  rewrite EW. clear EW. simpl bind.
  unfold high_value_mask. rewrite map_map.
  set (W := weight_of metric df).
  set (p := fun r : Row => Qltb 0.7 (W r)).
  rewrite mask_sum_map, (select_map p W df).
  change (select (map p df) (col x df)) with (select (map p df) (map x df)).
  change (select (map p df) (col y df)) with (select (map p df) (map y df)).
  rewrite !(select_map p).
  change (filter p df) with (attractors metric df).
  destruct (attractors metric df) as [| a0 rows] eqn:EA.
  - left. split; reflexivity.
  - right. split; [discriminate |]. rewrite <- EA.
    assert (Hs : ~ series_sum (map W (attractors metric df)) == 0)
      by (apply attractors_weight_sum_pos; rewrite EA; discriminate).
    replace (Nat.ltb 0 (List.length (attractors metric df))) with true
      by (rewrite EA; reflexivity).
    rewrite !truediv_ok by exact Hs. simpl bind.
    rewrite pull_rowwise.
    do 2 eexists. split; [| split; [| reflexivity]];
      apply center_is_centroid.
Qed.

Lemma pull_same_but_velocity (cx cy strength w : Q) (r : Row) :
  same_but_velocity r (pull cx cy strength w r).
Proof. unfold same_but_velocity. repeat split. Qed.

Lemma same_but_velocity_refl (r : Row) : same_but_velocity r r.
Proof. unfold same_but_velocity. repeat split. Qed.

Lemma Forall2_diag {A : Type} (P : A -> A -> Prop) (l : list A) :
  (forall a, P a a) -> Forall2 P l l.
Proof.
  intros H. induction l; constructor; auto.
Qed.

(** C10. For every mode string and every strength the call returns a
    collection with the same rows in the same order, each of them equal to
    its input row in every field except [vx] and [vy]. *)
Theorem apply_attraction_frame (df : DataFrame) (mode : string)
  (strength : Q) :
  exists out,
    apply_attraction df mode strength = Ok out
    /\ Forall2 same_but_velocity df out.
Proof.
  destruct (weight_column mode) as [metric |] eqn:Hmode.
  - destruct (apply_attraction_rowwise df mode strength metric Hmode)
      as [[_ Hout] | [_ (cx & cy & _ & _ & Hout)]].
    + exists df. split; [exact Hout |].
      apply Forall2_diag. apply same_but_velocity_refl.
    + eexists. split; [exact Hout |].
      apply Forall2_map_self. intros r _. apply pull_same_but_velocity.
  - exists df. split.
    + unfold apply_attraction. rewrite Hmode. reflexivity.
    + apply Forall2_diag. apply same_but_velocity_refl.
Qed.

(** An unrecognized mode returns the input itself. *)
Lemma apply_attraction_unrecognized (df : DataFrame) (mode : string)
  (strength : Q) :
  weight_column mode = None -> apply_attraction df mode strength = Ok df.
Proof.
  intros H. unfold apply_attraction. rewrite H. reflexivity.
Qed.

(** Equal metric values give every row the normalized weight 0. *)
Lemma equal_metric_weight_zero (metric : Row -> Q) (df : DataFrame) :
  (forall r r', In r df -> In r' df -> metric r == metric r') ->
  forall r, In r df -> weight_of metric df r == 0.
Proof.
  intros Heq r Hr.
  assert (Hne : col metric df <> []).
  { unfold col. destruct df; [destruct Hr | discriminate]. }
  pose proof (col_min_in _ Hne) as Hin.
  unfold col in Hin at 2. apply in_map_iff in Hin.
  destruct Hin as [r0 [E0 Hr0]].
  pose proof (Heq r r0 Hr Hr0) as E. rewrite E0 in E.
  pose proof (col_min_le_max (col metric df)) as Hle.
  unfold weight_of, norm_weight. rewrite E. field. lra.
Qed.

Lemma filter_none {A : Type} (p : A -> bool) (l : list A) :
  (forall a, In a l -> p a = false) -> filter p l = [].
Proof.
  induction l as [| a l IH]; intros H; simpl; [reflexivity |].
  rewrite (H a (or_introl eq_refl)).
  apply IH. intros b Hb. apply H. right. exact Hb.
Qed.

(** C7. When all rows carry the same value of the weighting metric, the
    call returns (no division by zero), the normalized weights are one
    constant, the mask [weights > 0.7] is the same for all rows, and the
    attractor set is the whole collection or empty according to whether
    that constant exceeds 0.7. *)
Theorem apply_attraction_equal_weights (df : DataFrame) (mode : string)
  (strength : Q) (metric : Row -> Q) :
  weight_column mode = Some metric ->
  (forall r r', In r df -> In r' df -> metric r == metric r') ->
  (exists out, apply_attraction df mode strength = Ok out)
  /\ exists ws c,
       normalize_weights (col metric df) = Ok ws
       /\ Forall (fun w => w == c) ws
       /\ high_value_mask ws = map (fun _ => Qltb 0.7 c) df
       /\ attractors metric df = (if Qltb 0.7 c then df else []).
Proof.
  intros Hmode Heq.
  pose proof (equal_metric_weight_zero metric df Heq) as Hz.
  split.
  - destruct (apply_attraction_rowwise df mode strength metric Hmode)
      as [[_ Hout] | [_ (cx & cy & _ & _ & Hout)]];
      eexists; exact Hout.
  - exists (map (weight_of metric df) df), 0.
    split; [| split; [| split]].
    + rewrite normalize_weights_ok. unfold col. rewrite map_map.
      reflexivity.
    + apply Forall_forall. intros w Hw. apply in_map_iff in Hw.
      destruct Hw as [r [<- Hr]]. apply Hz. exact Hr.
    + unfold high_value_mask. rewrite map_map.
      apply map_ext_in. intros r Hr.
      change (Qltb 0.7 0) with false. apply Qltb_false.
      rewrite (Hz r Hr). lra.
    + change (Qltb 0.7 0) with false. cbv iota.
      apply filter_none. intros r Hr. apply Qltb_false.
      rewrite (Hz r Hr). lra.
Qed.

(** With equal metric values the attractor set is in fact always empty,
    and the collection is returned as it is. *)
Lemma equal_weights_no_attractor (df : DataFrame) (mode : string)
  (strength : Q) (metric : Row -> Q) :
  weight_column mode = Some metric ->
  (forall r r', In r df -> In r' df -> metric r == metric r') ->
  attractors metric df = [] /\ apply_attraction df mode strength = Ok df.
Proof.
  intros Hmode Heq.
  assert (HA : attractors metric df = []).
  { apply filter_none. intros r Hr. apply Qltb_false.
    rewrite (equal_metric_weight_zero metric df Heq r Hr). lra. }
  split; [exact HA |].
  destruct (apply_attraction_rowwise df mode strength metric Hmode)
    as [[_ Hout] | [HA' _]]; [exact Hout | contradiction].
Qed.

Lemma apply_attraction_equal_weights_witness :
  let df := [particle AAPL 0.55 1 0 20 30;
             particle AAPL 0.55 0 1 60 80;
             particle AAPL 0.55 (-1) 2 80 40] in
  let metric := fun r => rule_of_40 (metrics r) in
  (exists out, apply_attraction df "value" 0.03 = Ok out)
  /\ exists ws c,
       normalize_weights (col metric df) = Ok ws
       /\ Forall (fun w => w == c) ws
       /\ high_value_mask ws = map (fun _ => Qltb 0.7 c) df
       /\ attractors metric df = (if Qltb 0.7 c then df else []).
Proof.
  intros df metric.
  apply (apply_attraction_equal_weights df "value" 0.03 metric eq_refl).
  intros r r' Hr Hr'.
  assert (H : forall a, In a df -> metric a = 65).
  { intros a [<- | [<- | [<- | []]]]; reflexivity. }
  rewrite (H r Hr), (H r' Hr'). reflexivity.
Defined.

(** ** Concrete runs *)

(** The self-test scores 25, 65 and 90 glow in increasing order. *)
Example glow_sample_order :
  get_glow_intensity 25 < get_glow_intensity 65
  /\ get_glow_intensity 65 < get_glow_intensity 90.
Proof. split; reflexivity. Qed.

Example normalize_midpoint : returns (normalize 5 0 10 10 60) 35.
Proof. eexists. split; reflexivity. Qed.

(** In value mode the only attractor among the three sample particles is
    NVDA (weights 40/65.001, 0 and 65/65.001), so the centroid is its
    position and it is itself pulled by nothing. *)
Example attraction_sample :
  let df := [particle AAPL 0.55 1 0 20 30;
             particle TSLA 0.95 0 1 60 80;
             particle NVDA 0.7 (-1) 2 80 40] in
  attractors (fun r => rule_of_40 (metrics r)) df
  = [particle NVDA 0.7 (-1) 2 80 40]
  /\ exists out,
       apply_attraction df "value" 0.03 = Ok out
       /\ Forall2 (fun v r' => vx r' == v) [1 + 60 * 0.03 * (25001 # 65001);
                                            0 + 20 * 0.03 * 1;
                                            -1 + 0] out.
Proof.
  split; [reflexivity |].
  eexists. split; [vm_compute; reflexivity |].
  repeat constructor.
Qed.

(** One tick of the radar (time step 0.3, bounds 5..95): the first particle
    leaves through the right and the bottom wall and is put back on both;
    the second moves freely. *)
Example integrator_sample :
  update_positions [particle AAPL 0.5 40 (-70) 90 10;
                    particle TSLA 1 (-3) 2 50 50] 0.3 (5, 95, 5, 95)
  = map (step_row 0.3 (5, 95, 5, 95))
        [particle AAPL 0.5 40 (-70) 90 10; particle TSLA 1 (-3) 2 50 50]
  /\ Forall2 (fun p r' => x r' == fst (fst p) /\ y r' == snd (fst p)
                          /\ vx r' == fst (snd p) /\ vy r' == snd (snd p))
       [((95, 5), (-19.6, 34.3)); ((49.1, 50.6), (-2.94, 1.96))]
       (update_positions [particle AAPL 0.5 40 (-70) 90 10;
                          particle TSLA 1 (-3) 2 50 50] 0.3 (5, 95, 5, 95)).
Proof.
  split; [apply update_positions_rowwise |].
  vm_compute. repeat constructor.
Qed.

(** ** Further properties of the mapping functions *)

(** [lra] after the divisions by literals, also in the hypotheses, have
    been turned into products. *)
Ltac qlra_all :=
  repeat match goal with
  | H : context [_ / _] |- _ => rewrite !Qdiv_lit in H
  end;
  rewrite ?Qdiv_lit; lra.

Lemma normalize_bounds (v lo hi tmin tmax : Q) :
  lo <= v -> v <= hi -> tmin <= tmax ->
  exists s, normalize v lo hi tmin tmax = Ok s /\ tmin <= s /\ s <= tmax.
Proof.
  intros Hlo Hhi Ht. unfold normalize. cmp_cases.
  - exists tmin. split; [reflexivity | lra].
  - rewrite truediv_ok by lra. simpl. eexists. split; [reflexivity |].
    assert (H0 : 0 <= (v - lo) / (hi - lo))
      by (apply Qle_shift_div_l; lra).
    assert (H1 : (v - lo) / (hi - lo) <= 1)
      by (apply Qle_shift_div_r; lra).
    set (q := (v - lo) / (hi - lo)) in *.
    assert (Ha : 0 <= q * (tmax - tmin))
      by (apply Qmult_le_0_compat; lra).
    assert (Hb : q * (tmax - tmin) <= 1 * (tmax - tmin))
      by (apply Qmult_le_compat_r; lra).
    lra.
Qed.

(** X1. A value between the source bounds is mapped between the target
    bounds. *)
Theorem normalize_in_range (v lo hi tmin tmax : Q) :
  lo <= v -> v <= hi -> tmin <= tmax ->
  exists s, normalize v lo hi tmin tmax = Ok s /\ tmin <= s /\ s <= tmax.
Proof. exact (normalize_bounds v lo hi tmin tmax). Qed.

Lemma normalize_in_range_witness :
  exists s, normalize 7 2 12 0.5 3.0 = Ok s /\ 0.5 <= s /\ s <= 3.0.
Proof.
  apply normalize_in_range; vm_compute; discriminate.
Defined.

Lemma normalize_order (v1 v2 lo hi tmin tmax : Q) :
  lo <= hi -> tmin <= tmax -> v1 <= v2 ->
  exists r1 r2,
    normalize v1 lo hi tmin tmax = Ok r1
    /\ normalize v2 lo hi tmin tmax = Ok r2
    /\ r1 <= r2.
Proof.
  intros Hb Ht Hv. unfold normalize. cmp_cases.
  - exists tmin, tmin. repeat split; lra.
  - rewrite !truediv_ok by lra. simpl. do 2 eexists.
    split; [reflexivity |]. split; [reflexivity |].
    assert (Hd : 0 <= / (hi - lo))
      by (apply Qinv_le_0_compat; lra).
    assert (Hq : (v1 - lo) / (hi - lo) <= (v2 - lo) / (hi - lo))
      by (unfold Qdiv; apply Qmult_le_compat_r; lra).
    assert (Hm : (v1 - lo) / (hi - lo) * (tmax - tmin)
                 <= (v2 - lo) / (hi - lo) * (tmax - tmin))
      by (apply Qmult_le_compat_r; lra).
    lra.
Qed.

(** X2. With source bounds and target bounds in order, [normalize] is
    non-decreasing in the value. *)
Theorem normalize_monotone (v1 v2 lo hi tmin tmax : Q) :
  lo <= hi -> tmin <= tmax -> v1 <= v2 ->
  exists r1 r2,
    normalize v1 lo hi tmin tmax = Ok r1
    /\ normalize v2 lo hi tmin tmax = Ok r2
    /\ r1 <= r2.
Proof. exact (normalize_order v1 v2 lo hi tmin tmax). Qed.

Lemma normalize_monotone_witness :
  exists r1 r2,
    normalize 3 0 10 10 60 = Ok r1 /\ normalize 8 0 10 10 60 = Ok r2
    /\ r1 <= r2.
Proof.
  apply normalize_monotone; vm_compute; discriminate.
Defined.

(** X3. Glow lies between 0.1 and 1.0 for every score. *)
Theorem get_glow_intensity_range (score : Q) :
  0.1 <= get_glow_intensity score /\ get_glow_intensity score <= 1.0.
Proof.
  unfold get_glow_intensity. cmp_cases; split; qlra.
Qed.

(** X4. Opacity lies between 0.4 and 1.0 for every debt-to-equity
    ratio. *)
Theorem get_opacity_range (d : Q) :
  0.4 <= get_opacity d /\ get_opacity d <= 1.0.
Proof.
  unfold get_opacity, pymax2. cmp_cases; split; qlra_all.
Qed.

(** X5. More debt never makes a bubble more opaque. *)
Theorem get_opacity_antitone (a b : Q) :
  a <= b -> get_opacity b <= get_opacity a.
Proof.
  intros H. unfold get_opacity, pymax2. cmp_cases; qlra_all.
Qed.

Lemma get_opacity_antitone_witness : get_opacity 180 <= get_opacity 60.
Proof.
  apply get_opacity_antitone. vm_compute. discriminate.
Defined.

Lemma get_elasticity_bounds (v : Q) :
  0.3 <= get_elasticity v /\ get_elasticity v <= 1.0.
Proof.
  unfold get_elasticity, pymin2. split; cmp_cases; qlra_all.
Qed.

(** X6. Elasticity lies between 0.3 and 1.0 for every volatility, and is
    non-decreasing over the positive volatilities. *)
Theorem get_elasticity_range (v : Q) :
  0.3 <= get_elasticity v /\ get_elasticity v <= 1.0
  /\ forall v', 0 < v -> v <= v' -> get_elasticity v <= get_elasticity v'.
Proof.
  unfold get_elasticity, pymin2. split; [| split].
  - cmp_cases; qlra_all.
  - cmp_cases; qlra_all.
  - intros v' Hv Hvv'. cmp_cases; qlra_all.
Qed.

Lemma get_elasticity_range_witness :
  get_elasticity 25 <= get_elasticity 65.
Proof.
  apply (proj2 (proj2 (get_elasticity_range 25))); vm_compute;
    [reflexivity | discriminate].
Defined.

(** Elasticity is not monotone across 0: a flat price history bounces
    more than a slightly volatile one. *)
Example get_elasticity_dip : get_elasticity 1 < get_elasticity 0.
Proof. reflexivity. Qed.

(** X7. Gains get a warm hue (at most 50), losses a cold one (at least
    180), and the hue never increases with the daily change. *)
Theorem get_stock_color_hue (c c' r r' : Q) :
  (0 <= c -> hue_of (get_stock_color c r) <= 50)
  /\ (c < 0 -> 180 <= hue_of (get_stock_color c r))
  /\ (c <= c' ->
      hue_of (get_stock_color c' r') <= hue_of (get_stock_color c r)).
Proof.
  unfold get_stock_color, hue_of. simpl.
  split; [| split]; intros H; cmp_cases; lra.
Qed.

Lemma get_stock_color_hue_witness :
  hue_of (get_stock_color 2.5 65) <= 50
  /\ 180 <= hue_of (get_stock_color (-3.2) 25)
  /\ hue_of (get_stock_color 5.1 90) <= hue_of (get_stock_color 2.5 65).
Proof.
  split; [| split].
  - apply (proj1 (get_stock_color_hue 2.5 0 65 0)). vm_compute.
    discriminate.
  - apply (proj1 (proj2 (get_stock_color_hue (-3.2) 0 25 0))). reflexivity.
  - apply (proj2 (proj2 (get_stock_color_hue 2.5 5.1 65 90))). vm_compute.
    discriminate.
Defined.

(** X8. The saturation lies between 50 and 100 (the lower clamp at 40 is
    never reached), depends on the magnitude of the score only, and is 100
    from a magnitude of 100 on. *)
Theorem get_stock_color_saturation (c r : Q) :
  50 <= saturation_of (get_stock_color c r)
  /\ saturation_of (get_stock_color c r) <= 100
  /\ saturation_of (get_stock_color c (- r))
     == saturation_of (get_stock_color c r)
  /\ (100 <= Qabs r -> saturation_of (get_stock_color c r) == 100).
Proof.
  change (saturation_of (get_stock_color c r))
    with (pymin2 100 (pymax2 40 (50 + Qabs r / 2))).
  change (saturation_of (get_stock_color c (- r)))
    with (pymin2 100 (pymax2 40 (50 + Qabs (- r) / 2))).
  pose proof (Qabs_opp r) as Ho.
  pose proof (Qabs_nonneg r) as Hr.
  generalize dependent (Qabs (- r)). generalize dependent (Qabs r).
  intros m Hm m' Hmm'.
  split; [| split; [| split; [| intros H]]];
    unfold pymax2; cmp_cases; unfold pymin2; cmp_cases; qlra_all.
Qed.

Lemma get_stock_color_saturation_witness :
  saturation_of (get_stock_color 1 (-120)) == 100.
Proof.
  apply (proj2 (proj2 (proj2 (get_stock_color_saturation 1 (-120))))).
  vm_compute. discriminate.
Defined.

Lemma Forall2_right {A B : Type} (P : B -> Prop) (l : list A) (s : list B) :
  Forall2 (fun _ b => P b) l s -> Forall P s.
Proof.
  intros H. induction H; constructor; assumption.
Qed.

Lemma Forall2_map_left {A B C : Type} (f : A -> B) (P : B -> C -> Prop)
  (l : list A) (s : list C) :
  Forall2 P (map f l) s -> Forall2 (fun a c => P (f a) c) l s.
Proof.
  revert s. induction l as [| a l IH]; intros s H; inversion H; subst;
    constructor; auto.
Qed.

Lemma get_pulse_speed_range (v : Q) (all_volumes : list Q) :
  In v all_volumes ->
  exists s, get_pulse_speed v all_volumes = Ok s /\ 0.5 <= s /\ s <= 3.0.
Proof.
  intros Hin. unfold get_pulse_speed.
  destruct all_volumes as [| a t]; [destruct Hin |]. simpl.
  destruct (Qle_bool v 0).
  - exists 1.0. split; [reflexivity | lra].
  - destruct (normalize_bounds v (fold_left pymin2 t a)
                (fold_left pymax2 t a) 0.5 3.0) as [s [Es Hs]].
    + apply fold_min_lower. exact Hin.
    + apply fold_max_upper. exact Hin.
    + lra.
    + rewrite Es. simpl. exists s. split; [reflexivity | exact Hs].
Qed.

(** X9. For every collection the pulse speeds are computed, one per
    entity, and each lies between 0.5 and 3.0. *)
Theorem pulse_speed_column_range (df : list Metrics) :
  exists s, pulse_speed_column df = Ok s
            /\ List.length s = List.length df
            /\ Forall (fun v => 0.5 <= v /\ v <= 3.0) s.
Proof.
  unfold pulse_speed_column, col.
  destruct (apply_series_total
              (fun v => get_pulse_speed v (map volume df))
              (fun _ s => 0.5 <= s /\ s <= 3.0) (map volume df))
    as [s [Es Ps]].
  { intros v Hv. apply get_pulse_speed_range. exact Hv. }
  exists s. split; [exact Es |]. split.
  - rewrite <- (Forall2_length Ps). apply length_map.
  - eapply Forall2_right. exact Ps.
Qed.

Lemma bind_ret {A : Type} (r : result A) : bind r (fun a => Ok a) = r.
Proof. destruct r; reflexivity. Qed.

(** A positive cap in a non-empty list whose minimum exceeds -1: the size
    is the rescaled logarithm. *)
Lemma get_bubble_size_in_domain (log10 : Q -> Q) (cap a : Q) (t : list Q) :
  0 < cap -> -1 < fold_left pymin2 t a ->
  get_bubble_size log10 cap (a :: t)
  = normalize (log10 (cap + 1)) (log10 (fold_left pymin2 t a + 1))
              (log10 (fold_left pymax2 t a + 1)) 10 60.
Proof.
  intros Hpos Hlo. unfold get_bubble_size.
  apply Qle_bool_false in Hpos. rewrite Hpos.
  apply Qle_bool_false in Hpos.
  simpl truthy. cbv iota. unfold pymin, pymax, math_log10.
  assert (Hmm : fold_left pymin2 t a <= fold_left pymax2 t a).
  { eapply Qle_trans.
    - apply (fold_min_lower t a a). left. reflexivity.
    - apply (fold_max_upper t a a). left. reflexivity. }
  assert (C1 : Qle_bool (cap + 1) 0 = false)
    by (apply Qle_bool_false; lra).
  assert (C2 : Qle_bool (fold_left pymin2 t a + 1) 0 = false)
    by (apply Qle_bool_false; lra).
  assert (C3 : Qle_bool (fold_left pymax2 t a + 1) 0 = false)
    by (apply Qle_bool_false; lra).
  simpl. rewrite C1. simpl. rewrite C2. simpl. rewrite C3. simpl.
  apply bind_ret.
Qed.

Section SizeOrder.

Variable log10 : Q -> Q.
Hypothesis log10_mono : forall a b, 0 < a -> a <= b -> log10 a <= log10 b.

Lemma get_bubble_size_monotone (c1 c2 v1 v2 : Q) (all_caps : list Q) :
  In c1 all_caps -> In c2 all_caps ->
  (forall c, In c all_caps -> -1 < c) ->
  c1 <= c2 ->
  get_bubble_size log10 c1 all_caps = Ok v1 ->
  get_bubble_size log10 c2 all_caps = Ok v2 ->
  v1 <= v2.
Proof.
  intros H1 H2 Hdom Hle E1 E2.
  destruct all_caps as [| a t]; [destruct H1 |].
  pose proof (Hdom _ (fold_min_in t a)) as Hlo.
  destruct (Qlt_le_dec 0 c1) as [P1 | N1].
  - assert (P2 : 0 < c2) by lra.
    rewrite get_bubble_size_in_domain in E1, E2 by assumption.
    destruct (normalize_order (log10 (c1 + 1)) (log10 (c2 + 1))
                (log10 (fold_left pymin2 t a + 1))
                (log10 (fold_left pymax2 t a + 1)) 10 60)
      as (r1 & r2 & R1 & R2 & Hr).
    + apply log10_mono; [lra |].
      pose proof (fold_min_lower t a a (or_introl eq_refl)).
      pose proof (fold_max_upper t a a (or_introl eq_refl)). lra.
    + lra.
    + apply log10_mono; lra.
    + congruence.
  - rewrite (get_bubble_size_nonpositive log10 c1 (a :: t) N1) in E1.
    injection E1 as <-.
    destruct (Qlt_le_dec 0 c2) as [P2 | N2].
    + destruct (get_bubble_size_positive log10 log10_mono c2 (a :: t)
                  P2 H2 Hdom) as [s [Es Hs]].
      assert (s = v2) by congruence. subst s. lra.
    + rewrite (get_bubble_size_nonpositive log10 c2 (a :: t) N2) in E2.
      injection E2 as <-. lra.
Qed.

(** X10. In a collection whose market caps all exceed -1, the sizes are
    computed and follow the order of the market caps: an entity with a
    larger cap never gets a smaller bubble. *)
Theorem size_column_monotone (df : list Metrics) :
  (forall m, In m df -> -1 < market_cap m) ->
  exists s,
    size_column log10 df = Ok s
    /\ forall i j m1 m2 v1 v2,
         nth_error df i = Some m1 -> nth_error s i = Some v1 ->
         nth_error df j = Some m2 -> nth_error s j = Some v2 ->
         market_cap m1 <= market_cap m2 -> v1 <= v2.
Proof.
  intros Hdom.
  assert (Hdom' : forall c, In c (map market_cap df) -> -1 < c).
  { intros c Hc. apply in_map_iff in Hc. destruct Hc as [m [<- Hm]].
    apply Hdom. exact Hm. }
  unfold size_column, col.
  destruct (apply_series_total
              (fun c => get_bubble_size log10 c (map market_cap df))
              (fun c v => get_bubble_size log10 c (map market_cap df) = Ok v)
              (map market_cap df)) as [s [Es Ps]].
  { intros c Hc. destruct (Qlt_le_dec 0 c) as [Hpos | Hneg].
    - destruct (get_bubble_size_positive log10 log10_mono c
                  (map market_cap df) Hpos Hc Hdom') as [v [Ev _]].
      exists v. split; exact Ev.
    - exists 5. split; apply get_bubble_size_nonpositive; exact Hneg. }
  exists s. split; [exact Es |].
  apply Forall2_map_left in Ps.
  intros i j m1 m2 v1 v2 Hi Hvi Hj Hvj Hle.
  destruct (Forall2_nth_error _ _ _ i m1 Ps Hi) as [b1 [Hb1 G1]].
  destruct (Forall2_nth_error _ _ _ j m2 Ps Hj) as [b2 [Hb2 G2]].
  assert (b1 = v1) by congruence. assert (b2 = v2) by congruence.
  subst b1 b2.
  apply (get_bubble_size_monotone (market_cap m1) (market_cap m2) v1 v2
           (map market_cap df)); try assumption.
  - apply in_map. eapply nth_error_In. exact Hi.
  - apply in_map. eapply nth_error_In. exact Hj.
Qed.

End SizeOrder.

Lemma size_column_monotone_witness :
  exists s,
    size_column floor_log2 [AAPL; TSLA; NVDA] = Ok s
    /\ forall i j m1 m2 v1 v2,
         nth_error [AAPL; TSLA; NVDA] i = Some m1 ->
         nth_error s i = Some v1 ->
         nth_error [AAPL; TSLA; NVDA] j = Some m2 ->
         nth_error s j = Some v2 ->
         market_cap m1 <= market_cap m2 -> v1 <= v2.
Proof.
  apply (size_column_monotone floor_log2 floor_log2_mono).
  intros m [<- | [<- | [<- | []]]]; reflexivity.
Defined.

(** X11. When all entities have the same positive market cap (a single
    entity in particular), every size is 10, the bottom of the range. *)
Theorem size_column_equal_caps (log10 : Q -> Q) (df : list Metrics)
  (c : Q) :
  0 < c -> (forall m, In m df -> market_cap m = c) ->
  size_column log10 df = Ok (map (fun _ => 10) df).
Proof.
  intros Hc Hall. unfold size_column, col.
  assert (Hcaps : forall c', In c' (map market_cap df) -> c' = c).
  { intros c' H. apply in_map_iff in H. destruct H as [m [<- Hm]].
    apply Hall. exact Hm. }
  assert (Hone : forall c', In c' (map market_cap df) ->
            get_bubble_size log10 c' (map market_cap df) = Ok 10).
  { intros c' Hin. rewrite (Hcaps c' Hin).
    destruct (map market_cap df) as [| a t] eqn:E; [destruct Hin |].
    pose proof (Hcaps _ (fold_min_in t a)) as Emin.
    pose proof (Hcaps _ (fold_max_in t a)) as Emax.
    rewrite get_bubble_size_in_domain by (rewrite ?Emin; lra).
    rewrite Emin, Emax. unfold normalize.
    rewrite Qeq_bool_refl. reflexivity. }
  set (caps := map market_cap df) in *.
  assert (G : forall l, (forall c', In c' l ->
                           get_bubble_size log10 c' caps = Ok 10) ->
              apply_series (fun c' => get_bubble_size log10 c' caps) l
              = Ok (map (fun _ => 10) l)).
  { induction l as [| c' l IH]; intros H; simpl; [reflexivity |].
    rewrite (H c' (or_introl eq_refl)). simpl.
    rewrite IH by (intros; apply H; right; assumption). reflexivity. }
  rewrite (G caps Hone). unfold caps. rewrite map_map. reflexivity.
Qed.

Lemma size_column_equal_caps_witness :
  size_column floor_log2 [AAPL] = Ok [10].
Proof.
  apply (size_column_equal_caps floor_log2 [AAPL] 3000000000000).
  - reflexivity.
  - intros m [<- | []]. reflexivity.
Defined.

(** X12. With the cosine and sine of 45 degrees positive and those of
    -135 degrees negative, the initial velocity points up and to the right
    of the momentum drift for positive revenue growth, down and to the
    left for negative growth, and is the pure drift [(0, momentum / 100)]
    for zero growth. *)
Theorem get_velocity_vector_direction (rad cos sin : Q -> Q) (g m : Q) :
  0 < cos (rad 45) -> 0 < sin (rad 45) ->
  cos (rad (-135)) < 0 -> sin (rad (-135)) < 0 ->
  let v := get_velocity_vector rad cos sin g m in
  (0 < g -> 0 < fst v /\ m / 100 < snd v)
  /\ (g < 0 -> fst v < 0 /\ snd v < m / 100)
  /\ (g == 0 -> fst v == 0 /\ snd v == m / 100).
Proof.
  intros Hc Hs Hc' Hs'. unfold get_velocity_vector. simpl.
  assert (Hpos : forall a b, 0 < a -> 0 < b -> 0 < a * b)
    by (intros; apply Qmult_lt_0_compat; assumption).
  assert (Hneg : forall a b, 0 < a -> b < 0 -> a * b < 0).
  { intros a b Ha Hb.
    assert (0 < a * - b) by (apply Hpos; lra).
    assert (E : a * - b == - (a * b)) by ring. lra. }
  split; [| split]; intros Hg.
  - assert (C : Qle_bool 0 g = true) by (apply Qle_bool_iff; lra).
    rewrite C.
    assert (Hsp : 0 < Qabs g / 20).
    { rewrite Qabs_pos by lra. rewrite Qdiv_lit. lra. }
    pose proof (Hpos _ _ Hsp Hc). pose proof (Hpos _ _ Hsp Hs).
    split; lra.
  - assert (C : Qle_bool 0 g = false) by (apply Qle_bool_false; lra).
    rewrite C.
    assert (Hsp : 0 < Qabs g / 20).
    { rewrite Qabs_neg by lra. rewrite Qdiv_lit. lra. }
    pose proof (Hneg _ _ Hsp Hc'). pose proof (Hneg _ _ Hsp Hs').
    split; lra.
  - assert (C : Qle_bool 0 g = true) by (apply Qle_bool_iff; lra).
    rewrite C.
    assert (Hsp : Qabs g / 20 == 0).
    { rewrite Hg. reflexivity. }
    rewrite Hsp. split; ring.
Qed.

Lemma get_velocity_vector_direction_witness :
  let rad := fun d : Q => d in
  let cos := fun a : Q => if Qle_bool 0 a then 0.7 else -0.7 in
  let v := get_velocity_vector rad cos cos 8 5 in
  0 < fst v /\ 5 / 100 < snd v.
Proof.
  intros rad cos v.
  apply (get_velocity_vector_direction rad cos cos 8 5); reflexivity.
Defined.

(** ** Further properties of the attraction solver *)

Lemma col_max_in (s : Series) : s <> [] -> In (col_max s) s.
Proof.
  destruct s as [| a t]; [congruence |]. intros _.
  unfold col_max. simpl. apply fold_max_in.
Qed.

Lemma col_bounds (s : Series) (v : Q) :
  In v s -> col_min s <= v /\ v <= col_max s.
Proof.
  destruct s as [| a t]; [intros [] |]. intros Hin.
  unfold col_min, col_max. simpl. split.
  - apply fold_min_lower. exact Hin.
  - apply fold_max_upper. exact Hin.
Qed.

Lemma weight_of_bounds (metric : Row -> Q) (df : DataFrame) (r : Row) :
  In r df -> 0 <= weight_of metric df r /\ weight_of metric df r < 1.
Proof.
  intros Hr.
  destruct (col_bounds (col metric df) (metric r)) as [Hlo Hhi].
  { unfold col. apply in_map. exact Hr. }
  unfold weight_of, norm_weight. split.
  - apply Qle_shift_div_l; lra.
  - apply Qlt_shift_div_r; lra.
Qed.

(** X13. Every normalized weight lies in [0, 1): the epsilon in the
    denominator keeps even the largest one below 1. *)
Theorem weight_of_range (metric : Row -> Q) (df : DataFrame) (r : Row) :
  In r df -> 0 <= weight_of metric df r /\ weight_of metric df r < 1.
Proof. exact (weight_of_bounds metric df r). Qed.

Lemma weight_of_range_witness :
  let df := [particle AAPL 0.55 1 0 20 30; particle NVDA 0.7 (-1) 2 80 40] in
  let w := weight_of (fun r => rule_of_40 (metrics r)) df
             (particle NVDA 0.7 (-1) 2 80 40) in
  0 <= w /\ w < 1.
Proof.
  intros df w. apply weight_of_range. right. left. reflexivity.
Defined.

Lemma weighted_sum_bounds (w pos : Row -> Q) (a b : Q) (rows : DataFrame) :
  (forall r, In r rows -> 0 <= w r /\ a <= pos r /\ pos r <= b) ->
  a * Qsum (map w rows) <= Qsum (map (fun r => w r * pos r) rows)
  /\ Qsum (map (fun r => w r * pos r) rows) <= b * Qsum (map w rows).
Proof.
  induction rows as [| r rows IH]; intros H; simpl; [lra |].
  destruct (H r (or_introl eq_refl)) as (Hw & Ha & Hb).
  destruct IH as [IHa IHb].
  { intros r' Hr'. apply H. right. exact Hr'. }
  assert (Ea : 0 <= w r * (pos r - a))
    by (apply Qmult_le_0_compat; lra).
  assert (Eb : 0 <= w r * (b - pos r))
    by (apply Qmult_le_0_compat; lra).
  split; lra.
Qed.

(** X15. The centroid is a weighted mean: when every attractor lies
    between [a] and [b] on an axis, so does the centroid. *)
Theorem attraction_centroid_between (metric pos : Row -> Q)
  (df : DataFrame) (a b : Q) :
  attractors metric df <> [] ->
  (forall r, In r (attractors metric df) -> a <= pos r /\ pos r <= b) ->
  a <= centroid (weight_of metric df) pos (attractors metric df)
  /\ centroid (weight_of metric df) pos (attractors metric df) <= b.
Proof.
  intros Hne Hbox.
  assert (Hpos : forall r, In r (attractors metric df) ->
                           0.7 < weight_of metric df r).
  { intros r Hr. apply filter_In in Hr. destruct Hr as [_ Hr].
    apply Qltb_true in Hr. exact Hr. }
  assert (Hsum : 0 < Qsum (map (weight_of metric df) (attractors metric df)))
    by (apply (Qsum_map_pos _ 0.7); [lra | exact Hpos | exact Hne]).
  destruct (weighted_sum_bounds (weight_of metric df) pos a b
              (attractors metric df)) as [Ha Hb].
  { intros r Hr. pose proof (Hpos r Hr). pose proof (Hbox r Hr).
    repeat split; lra. }
  unfold centroid. split.
  - apply Qle_shift_div_l; assumption.
  - apply Qle_shift_div_r; assumption.
Qed.

Lemma attraction_centroid_between_witness :
  let df := [particle AAPL 0.55 1 0 20 30;
             particle TSLA 0.95 0 1 60 80;
             particle NVDA 0.7 (-1) 2 80 40] in
  let metric := fun r => revenue_growth (metrics r) in
  10 <= centroid (weight_of metric df) x (attractors metric df)
  /\ centroid (weight_of metric df) x (attractors metric df) <= 90.
Proof.
  intros df metric. apply attraction_centroid_between.
  - vm_compute. discriminate.
  - intros r Hr. apply filter_In in Hr. destruct Hr as [Hr _].
    destruct Hr as [<- | [<- | [<- | []]]]; vm_compute;
      split; discriminate.
Defined.

Lemma Qlt_div_mult (a b c : Q) : 0 < c -> a < b / c -> a * c < b.
Proof.
  intros Hc H. destruct (Qlt_le_dec (a * c) b) as [G | G]; [exact G |].
  assert (b / c <= a) by (apply Qle_shift_div_r; assumption). lra.
Qed.

(** ** Further properties of the integrator *)

Lemma step_row_same_but_motion (dt : Q) (bounds : Q * Q * Q * Q) (r : Row) :
  same_but_motion r (step_row dt bounds r).
Proof.
  destruct bounds as [[[x_min x_max] y_min] y_max].
  unfold same_but_motion, step_row. simpl. repeat split.
Qed.

(** X17. A tick keeps the rows and their order and changes nothing but
    positions and velocities. *)
Theorem update_positions_frame (df : DataFrame) (time_delta : Q)
  (bounds : Q * Q * Q * Q) :
  Forall2 same_but_motion df (update_positions df time_delta bounds).
Proof.
  rewrite update_positions_rowwise.
  apply Forall2_map_self. intros r _. apply step_row_same_but_motion.
Qed.

(** One axis: with an elasticity between 0 and 1 the speed shrinks by the
    damping factor at least. *)
Lemma step_axis_damped (p v e dt lo hi : Q) :
  0 <= e -> e <= 1 ->
  Qabs (snd (step_axis p v e dt lo hi)) <= 0.98 * Qabs v.
Proof.
  intros He0 He1.
  assert (Hd : forall u, Qabs (u * 0.98) == 0.98 * Qabs u).
  { intros u. rewrite Qabs_Qmult.
    assert (H98 : Qabs 0.98 == 0.98) by reflexivity.
    rewrite H98. ring. }
  assert (Hr : forall u, Qabs (u * - e) <= Qabs u).
  { intros u. rewrite Qabs_Qmult, Qabs_opp, (Qabs_pos e) by exact He0.
    pose proof (Qabs_nonneg u) as Hu.
    assert (Hle : e * Qabs u <= 1 * Qabs u)
      by (apply Qmult_le_compat_r; assumption).
    lra. }
  unfold step_axis. cbv beta iota zeta delta [snd].
  cmp_cases; rewrite Hd.
  - pose proof (Hr v). pose proof (Hr (v * - e)). lra.
  - pose proof (Hr v). lra.
  - pose proof (Hr v). lra.
  - lra.
Qed.

Lemma ticks_rowwise (n : nat) (df : DataFrame) (dt : Q)
  (bounds : Q * Q * Q * Q) :
  ticks n df dt bounds = map (Nat.iter n (step_row dt bounds)) df.
Proof.
  revert df. induction n as [| n IH]; intros df; simpl ticks.
  - simpl. symmetry. apply map_id.
  - rewrite IH, update_positions_rowwise, map_map.
    apply map_ext. intros r. symmetry. apply Nat.iter_succ_r.
Qed.

Lemma step_row_velocity (dt x_min x_max y_min y_max : Q) (r : Row) :
  let r' := step_row dt (x_min, x_max, y_min, y_max) r in
  elasticity r' = elasticity r
  /\ vx r' = snd (step_axis (x r) (vx r) (elasticity r) dt x_min x_max)
  /\ vy r' = snd (step_axis (y r) (vy r) (elasticity r) dt y_min y_max).
Proof. repeat split. Qed.

Lemma iter_step_row_damped (n : nat) (dt : Q) (bounds : Q * Q * Q * Q)
  (r : Row) :
  0 <= elasticity r -> elasticity r <= 1 ->
  let r' := Nat.iter n (step_row dt bounds) r in
  elasticity r' = elasticity r
  /\ Qabs (vx r') <= 0.98 ^ Z.of_nat n * Qabs (vx r)
  /\ Qabs (vy r') <= 0.98 ^ Z.of_nat n * Qabs (vy r).
Proof.
  intros He0 He1. induction n as [| n IH].
  - simpl. split; [reflexivity |]. split; lra.
  - cbv zeta in *. destruct IH as (IHe & IHx & IHy).
    rewrite Nat.iter_succ.
    set (q := Nat.iter n (step_row dt bounds) r) in *.
    destruct bounds as [[[x_min x_max] y_min] y_max].
    destruct (step_row_velocity dt x_min x_max y_min y_max q)
      as (Se & Sx & Sy).
    rewrite Se, Sx, Sy.
    assert (Ep : 0.98 ^ Z.of_nat (S n) == 0.98 * 0.98 ^ Z.of_nat n).
    { rewrite Nat2Z.inj_succ, <- Z.add_1_l.
      rewrite Qpower_plus by (intros E; discriminate E).
      reflexivity. }
    split; [exact IHe |]. rewrite Ep.
    pose proof (step_axis_damped (x q) (vx q) (elasticity q) dt x_min x_max)
      as Dx.
    pose proof (step_axis_damped (y q) (vy q) (elasticity q) dt y_min y_max)
      as Dy.
    assert (Hq0 : 0 <= elasticity q) by (rewrite IHe; exact He0).
    assert (Hq1 : elasticity q <= 1) by (rewrite IHe; exact He1).
    specialize (Dx Hq0 Hq1). specialize (Dy Hq0 Hq1).
    set (k := 0.98 ^ Z.of_nat n) in *.
    split; lra.
Qed.

(** X19. With elasticities between 0 and 1, [n] ticks shrink each velocity
    component to at most [0.98 ^ n] of its magnitude, whatever walls were
    hit on the way. *)
Theorem ticks_damped (n : nat) (df : DataFrame) (time_delta : Q)
  (bounds : Q * Q * Q * Q) :
  (forall r, In r df -> 0 <= elasticity r /\ elasticity r <= 1) ->
  Forall2
    (fun r r' =>
       Qabs (vx r') <= 0.98 ^ Z.of_nat n * Qabs (vx r)
       /\ Qabs (vy r') <= 0.98 ^ Z.of_nat n * Qabs (vy r))
    df (ticks n df time_delta bounds).
Proof.
  intros He. rewrite ticks_rowwise.
  apply Forall2_map_self. intros r Hr.
  destruct (He r Hr) as [He0 He1].
  destruct (iter_step_row_damped n time_delta bounds r He0 He1)
    as (_ & Hx & Hy).
  split; assumption.
Qed.

Lemma ticks_damped_witness :
  Forall2
    (fun r r' =>
       Qabs (vx r') <= 0.98 ^ 3 * Qabs (vx r)
       /\ Qabs (vy r') <= 0.98 ^ 3 * Qabs (vy r))
    [particle AAPL 0.55 40 (-70) 90 10]
    (ticks 3 [particle AAPL 0.55 40 (-70) 90 10] 0.3 (5, 95, 5, 95)).
Proof.
  apply (ticks_damped 3).
  intros r [<- | []]. vm_compute. split; discriminate.
Defined.

(** X20. With the elasticity that [get_elasticity] derives from the
    volatility, a tick never speeds a row up. *)
Theorem update_positions_calm (df : DataFrame) (time_delta : Q)
  (bounds : Q * Q * Q * Q) :
  (forall r, In r df ->
     elasticity r = get_elasticity (volatility (metrics r))) ->
  Forall2
    (fun r r' =>
       Qabs (vx r') <= 0.98 * Qabs (vx r)
       /\ Qabs (vy r') <= 0.98 * Qabs (vy r))
    df (update_positions df time_delta bounds).
Proof.
  intros He. rewrite update_positions_rowwise.
  apply Forall2_map_self. intros r Hr.
  destruct (get_elasticity_bounds (volatility (metrics r))) as (H0 & H1).
  rewrite <- (He r Hr) in H0, H1.
  destruct bounds as [[[x_min x_max] y_min] y_max].
  unfold step_row. simpl.
  split; apply step_axis_damped; lra.
Qed.

Lemma update_positions_calm_witness :
  let r := particle AAPL (get_elasticity (volatility AAPL)) 40 (-70) 90 10 in
  Forall2
    (fun r r' =>
       Qabs (vx r') <= 0.98 * Qabs (vx r)
       /\ Qabs (vy r') <= 0.98 * Qabs (vy r))
    [r] (update_positions [r] 0.3 (5, 95, 5, 95)).
Proof.
  intros r. apply update_positions_calm.
  intros r0 [<- | []]. reflexivity.
Defined.

(** ** The radar tick *)

Lemma step_row_in_bounds (dt x_min x_max y_min y_max : Q) (r : Row) :
  x_min <= x_max -> y_min <= y_max ->
  in_bounds (x_min, x_max, y_min, y_max)
            (step_row dt (x_min, x_max, y_min, y_max) r).
Proof.
  intros Hx Hy. unfold in_bounds, step_row. simpl.
  destruct (step_axis_bounded (x r) (vx r) (elasticity r) dt x_min x_max Hx).
  destruct (step_axis_bounded (y r) (vy r) (elasticity r) dt y_min y_max Hy).
  repeat split; assumption.
Qed.

Lemma apply_attraction_shape (df : DataFrame) (mode : string)
  (strength : Q) :
  apply_attraction df mode strength = Ok df
  \/ exists cx cy (w : Row -> Q),
       apply_attraction df mode strength
       = Ok (map (fun r => pull cx cy strength (w r) r) df).
Proof.
  destruct (weight_column mode) as [metric |] eqn:Hmode.
  - destruct (apply_attraction_rowwise df mode strength metric Hmode)
      as [[_ Hout] | [_ (cx & cy & _ & _ & Hout)]].
    + left. exact Hout.
    + right. exists cx, cy, (weight_of metric df). exact Hout.
  - left. apply apply_attraction_unrecognized. exact Hmode.
Qed.

(** X21. The tick that the radar view performs on a snapshot (attraction
    in value mode, then one integrator step) always returns; it keeps the
    rows, their order and every field but position and velocity, and
    leaves every position inside the rectangle from 5 to 95. *)
Theorem radar_tick_spec (df : DataFrame) :
  exists out,
    radar_tick df = Ok out
    /\ Forall2 same_but_motion df out
    /\ Forall (in_bounds (5, 95, 5, 95)) out.
Proof.
  assert (Hb : 5 <= 95) by (vm_compute; discriminate).
  unfold radar_tick.
  destruct (apply_attraction_shape df "value" 0.03)
    as [E | (cx & cy & w & E)]; rewrite E;
    cbv beta iota zeta delta [bind];
    rewrite update_positions_rowwise; eexists;
    (split; [reflexivity |]).
  - split.
    + apply Forall2_map_self. intros r _. apply step_row_same_but_motion.
    + apply Forall_forall. intros r' Hin. apply in_map_iff in Hin.
      destruct Hin as [r [<- _]]. apply step_row_in_bounds; exact Hb.
  - rewrite map_map. split.
    + apply Forall2_map_self. intros r _.
      pose proof (pull_same_but_velocity cx cy 0.03 (w r) r) as Hp.
      pose proof (step_row_same_but_motion 0.3 (5, 95, 5, 95)
                    (pull cx cy 0.03 (w r) r)) as Hs.
      unfold same_but_velocity in Hp. unfold same_but_motion in *.
      destruct Hp as (P1 & P2 & P3 & P4 & P5 & P6 & P7 & _).
      destruct Hs as (S1 & S2 & S3 & S4 & S5 & S6 & S7).
      repeat split; congruence.
    + apply Forall_forall. intros r' Hin. apply in_map_iff in Hin.
      destruct Hin as [r [<- _]]. apply step_row_in_bounds; exact Hb.
Qed.

(** ** Selections of the snapshot *)

Section Selection.

Context {A : Type}.
Variable key : A -> Q.

Lemma insert_desc_In (a b : A) (l : list A) :
  In b (insert_desc key a l) <-> b = a \/ In b l.
Proof.
  induction l as [| c l IH]; simpl.
  - split; intros [H | H]; auto.
  - destruct (Qltb (key a) (key c)); simpl.
    + rewrite IH. split; intros H; intuition.
    + split; intros H; intuition.
Qed.

Lemma sort_desc_In (b : A) (l : list A) :
  In b (sort_desc key l) <-> In b l.
Proof.
  induction l as [| a l IH]; simpl; [reflexivity |].
  rewrite insert_desc_In, IH. split; intros [H | H]; auto.
Qed.

Lemma insert_desc_length (a : A) (l : list A) :
  List.length (insert_desc key a l) = S (List.length l).
Proof.
  induction l as [| c l IH]; simpl; [reflexivity |].
  destruct (Qltb (key a) (key c)); simpl; [rewrite IH |]; reflexivity.
Qed.

Lemma sort_desc_length (l : list A) :
  List.length (sort_desc key l) = List.length l.
Proof.
  induction l as [| a l IH]; simpl; [reflexivity |].
  rewrite insert_desc_length, IH. reflexivity.
Qed.

Lemma insert_desc_descending (a : A) (l : list A) :
  descending key l -> descending key (insert_desc key a l).
Proof.
  induction 1 as [| c l Hc Hl IH]; simpl.
  - constructor; [intros b [] | constructor].
  - destruct (Qltb (key a) (key c)) eqn:E.
    + apply Qltb_true in E. constructor; [| exact IH].
      intros b Hb. apply insert_desc_In in Hb.
      destruct Hb as [-> | Hb]; [lra | apply Hc; exact Hb].
    + apply Qltb_false in E. constructor.
      * intros b [<- | Hb]; [exact E |].
        eapply Qle_trans; [apply Hc; exact Hb | exact E].
      * constructor; assumption.
Qed.

Lemma sort_desc_descending (l : list A) :
  descending key (sort_desc key l).
Proof.
  induction l as [| a l IH]; simpl;
    [constructor | apply insert_desc_descending; exact IH].
Qed.

Lemma In_firstn (n : nat) (a : A) (l : list A) :
  In a (firstn n l) -> In a l.
Proof.
  intros H. rewrite <- (firstn_skipn n l). apply in_or_app. left. exact H.
Qed.

Lemma In_skipn (n : nat) (a : A) (l : list A) :
  In a (skipn n l) -> In a l.
Proof.
  intros H. rewrite <- (firstn_skipn n l). apply in_or_app. right. exact H.
Qed.

Lemma descending_firstn (n : nat) (l : list A) :
  descending key l ->
  descending key (firstn n l)
  /\ forall a b, In a (firstn n l) -> In b (skipn n l) -> key b <= key a.
Proof.
  intros H. revert n. induction H as [| c l Hc Hl IH]; intros n.
  - rewrite firstn_nil, skipn_nil. split; [constructor | intros a b []].
  - destruct n as [| n]; simpl.
    + split; [constructor | intros a b []].
    + destruct (IH n) as [IH1 IH2]. split.
      * constructor; [| exact IH1].
        intros b Hb. apply Hc. apply (In_firstn n). exact Hb.
      * intros a b [<- | Ha] Hb.
        -- apply Hc. apply (In_skipn n). exact Hb.
        -- apply IH2; assumption.
Qed.

(** What [nlargest] returns: as many rows as asked for (all of them when
    there are fewer), taken from the input, by decreasing key, and no row
    left out has a larger key than a row returned. *)
Lemma nlargest_spec (n : Z) (l : list A) :
  List.length (nlargest n key l) = Nat.min (Z.to_nat n) (List.length l)
  /\ descending key (nlargest n key l)
  /\ (forall a, In a (nlargest n key l) -> In a l)
  /\ (forall a b, In a (nlargest n key l) -> In b l ->
        key b <= key a \/ In b (nlargest n key l)).
Proof.
  unfold nlargest.
  pose proof (sort_desc_descending l) as Hd.
  destruct (descending_firstn (Z.to_nat n) _ Hd) as [H1 H2].
  split; [| split; [| split]].
  - rewrite length_firstn, sort_desc_length. reflexivity.
  - exact H1.
  - intros a Ha. apply sort_desc_In. eapply In_firstn. exact Ha.
  - intros a b Ha Hb. apply sort_desc_In in Hb.
    rewrite <- (firstn_skipn (Z.to_nat n) (sort_desc key l)) in Hb.
    apply in_app_or in Hb. destruct Hb as [Hb | Hb].
    + right. exact Hb.
    + left. apply H2; assumption.
Qed.

End Selection.

(** X22. [fetch_top_gainers] returns [top_n] rows of the snapshot (all of
    them when it has fewer, none when [top_n <= 0]), by decreasing daily
    change, and every row it leaves out gained no more than each row it
    returns. *)
Theorem fetch_top_gainers_spec (df : list Metrics) (top_n : Z) :
  let top := fetch_top_gainers df top_n in
  List.length top = Nat.min (Z.to_nat top_n) (List.length df)
  /\ descending change_pct top
  /\ (forall m, In m top -> In m df)
  /\ (forall m m', In m top -> In m' df ->
        change_pct m' <= change_pct m \/ In m' top).
Proof. apply nlargest_spec. Qed.

(** X23. [fetch_best_value_rule40] returns at most [top_n] rows of the
    snapshot, each with a Rule-of-40 score of at least [min_rule40], by
    decreasing score; a qualifying row that is left out scores no more
    than each row returned. *)
Theorem fetch_best_value_rule40_spec (df : list Metrics) (min_rule40 : Q)
  (top_n : Z) :
  let best := fetch_best_value_rule40 df min_rule40 top_n in
  (List.length best <= Z.to_nat top_n)%nat
  /\ descending rule_of_40 best
  /\ (forall m, In m best -> In m df /\ min_rule40 <= rule_of_40 m)
  /\ (forall m m', In m best -> In m' df -> min_rule40 <= rule_of_40 m' ->
        rule_of_40 m' <= rule_of_40 m \/ In m' best).
Proof.
  unfold fetch_best_value_rule40. cbv zeta.
  set (value_stocks := filter _ df).
  destruct (nlargest_spec rule_of_40 top_n value_stocks)
    as (Hlen & Hdesc & Hin & Htop).
  split; [| split; [| split]].
  - rewrite Hlen. apply Nat.le_min_l.
  - exact Hdesc.
  - intros m Hm. apply Hin in Hm. apply filter_In in Hm.
    destruct Hm as [Hm Hs]. apply Qle_bool_iff in Hs. split; assumption.
  - intros m m' Hm Hm' Hs. apply (Htop m m' Hm).
    apply filter_In. split; [exact Hm' |]. apply Qle_bool_iff. exact Hs.
Qed.

Lemma fetch_best_value_rule40_spec_witness :
  (In NVDA [AAPL; TSLA; NVDA] /\ 40 <= rule_of_40 NVDA)
  /\ (rule_of_40 AAPL <= rule_of_40 NVDA
      \/ In AAPL (fetch_best_value_rule40 [AAPL; TSLA; NVDA] 40 1)).
Proof.
  destruct (fetch_best_value_rule40_spec [AAPL; TSLA; NVDA] 40 1)
    as (_ & _ & Hin & Htop).
  assert (H : In NVDA (fetch_best_value_rule40 [AAPL; TSLA; NVDA] 40 1))
    by (left; reflexivity).
  split.
  - apply Hin. exact H.
  - apply (Htop NVDA AAPL H).
    + left. reflexivity.
    + vm_compute. discriminate.
Defined.

Example fetch_best_value_rule40_sample :
  fetch_best_value_rule40 [AAPL; TSLA; NVDA] 40 5 = [NVDA; AAPL]
  /\ fetch_top_gainers [AAPL; TSLA; NVDA] 2 = [NVDA; AAPL]
  /\ fetch_most_traded [AAPL; TSLA; NVDA] 1 = [TSLA]
  /\ fetch_top_gainers [AAPL; TSLA; NVDA] (-1) = [].
Proof. repeat split. Qed.

Lemma fetch_top_gainers_spec_witness :
  In NVDA [AAPL; TSLA; NVDA]
  /\ (change_pct TSLA <= change_pct NVDA
      \/ In TSLA (fetch_top_gainers [AAPL; TSLA; NVDA] 2)).
Proof.
  destruct (fetch_top_gainers_spec [AAPL; TSLA; NVDA] 2)
    as (_ & _ & Hin & Htop).
  assert (H : In NVDA (fetch_top_gainers [AAPL; TSLA; NVDA] 2))
    by (left; reflexivity).
  split.
  - apply Hin. exact H.
  - apply (Htop NVDA TSLA H). right. left. reflexivity.
Defined.

(** ** The snapshot cache *)

(** X24. After any call the cache holds the snapshot that was returned,
    with a time stamp.  A further call less than 300 seconds after that
    stamp returns the same snapshot and leaves the cache as it is,
    whatever tickers and count it asks for; a call 300 seconds or more
    after the stamp downloads the tickers it asks for and stores the
    result with the new stamp. *)
Theorem fetch_market_snapshot_cache
  (download : list string -> list Metrics) (clock clock_after : Q)
  (tickers : option (list string)) (max_stocks : Z) (st : CacheState) :
  let df1 := fst (fetch_market_snapshot download clock clock_after
                    tickers max_stocks st) in
  let st1 := snd (fetch_market_snapshot download clock clock_after
                    tickers max_stocks st) in
  exists stamp,
    _cache st1 = Some df1 /\ _cache_timestamp st1 = Some stamp
    /\ (forall download2 clock2 clock_after2 tickers2 max_stocks2,
          clock2 - stamp < CACHE_DURATION ->
          fetch_market_snapshot download2 clock2 clock_after2 tickers2
            max_stocks2 st1 = (df1, st1))
    /\ (forall download2 clock2 clock_after2 tickers2 max_stocks2,
          CACHE_DURATION <= clock2 - stamp ->
          let asked := match tickers2 with
                       | None => slice_to STOCK_TICKERS max_stocks2
                       | Some t => t
                       end in
          fetch_market_snapshot download2 clock2 clock_after2 tickers2
            max_stocks2 st1
          = (download2 asked,
             mkCache (Some (download2 asked)) (Some clock_after2))).
Proof.
  assert (G : forall df stamp,
            (forall download2 clock2 clock_after2 tickers2 max_stocks2,
               clock2 - stamp < CACHE_DURATION ->
               fetch_market_snapshot download2 clock2 clock_after2 tickers2
                 max_stocks2 (mkCache (Some df) (Some stamp))
               = (df, mkCache (Some df) (Some stamp)))
            /\ (forall download2 clock2 clock_after2 tickers2 max_stocks2,
                  CACHE_DURATION <= clock2 - stamp ->
                  let asked := match tickers2 with
                               | None => slice_to STOCK_TICKERS max_stocks2
                               | Some t => t
                               end in
                  fetch_market_snapshot download2 clock2 clock_after2
                    tickers2 max_stocks2 (mkCache (Some df) (Some stamp))
                  = (download2 asked,
                     mkCache (Some (download2 asked)) (Some clock_after2)))).
  { intros df stamp. split; intros d2 c2 ca2 t2 m2 H;
      unfold fetch_market_snapshot; simpl _cache; simpl _cache_timestamp;
      cbv iota beta.
    - apply Qltb_true in H. rewrite H. reflexivity.
    - apply Qltb_false in H. rewrite H. reflexivity. }
  cbv zeta.
  assert (S : exists df1 stamp,
            fetch_market_snapshot download clock clock_after tickers
              max_stocks st = (df1, mkCache (Some df1) (Some stamp))).
  { unfold fetch_market_snapshot.
    destruct st as [[cached |] [stamp |]]; simpl _cache;
      simpl _cache_timestamp; cbv iota beta; try (do 2 eexists; reflexivity).
    destruct (Qltb (clock - stamp) CACHE_DURATION);
      do 2 eexists; reflexivity. }
  destruct S as (df1 & stamp & E). rewrite E. simpl fst. simpl snd.
  exists stamp. split; [reflexivity |]. split; [reflexivity |]. apply G.
Qed.

(** One download for AAPL at time 1000, stored at 1002; a request for
    TSLA at 1200 is answered from the cache with the AAPL snapshot. *)
Lemma fetch_market_snapshot_cache_witness :
  let provider := fun ts : list string =>
                    map (fun t => sample_metrics t 0 0 1 1 0 0 0 0 0) ts in
  let st1 := snd (fetch_market_snapshot provider 1000 1002
                    (Some ["AAPL"%string]) 60 (mkCache None None)) in
  fetch_market_snapshot provider 1200 1203 (Some ["TSLA"%string]) 5 st1
  = (provider ["AAPL"%string], st1).
Proof.
  intros provider st1.
  destruct (fetch_market_snapshot_cache provider 1000 1002
              (Some ["AAPL"%string]) 60 (mkCache None None))
    as (stamp & _ & Hstamp & Hhit & _).
  apply (Hhit provider 1200 1203 (Some ["TSLA"%string]) 5%Z).
  injection Hstamp as <-. reflexivity.
Defined.

(** After [clear_cache] the next call downloads, by default the first
    [max_stocks] of the curated tickers. *)
Lemma clear_cache_forces_download
  (download : list string -> list Metrics) (clock clock_after : Q)
  (max_stocks : Z) (st : CacheState) :
  fetch_market_snapshot download clock clock_after None max_stocks
    (clear_cache st)
  = (download (slice_to STOCK_TICKERS max_stocks),
     mkCache (Some (download (slice_to STOCK_TICKERS max_stocks)))
             (Some clock_after)).
Proof. reflexivity. Qed.

(** ** The volatility estimate *)

(** X25. The volatility estimate never divides by zero, and for a
    positive 52-week low not above the high it lies in [0, 200). *)
Theorem volatility_estimate_range (current_price high_52w low_52w : Q) :
  exists v,
    volatility_estimate current_price high_52w low_52w = Ok v
    /\ (0 < low_52w -> low_52w <= high_52w -> 0 <= v /\ v < 200).
Proof.
  unfold volatility_estimate.
  destruct (Qltb 0 low_52w) eqn:El.
  - apply Qltb_true in El.
    rewrite truediv_ok by (intros E; discriminate E).
    cbv beta iota delta [bind].
    destruct (Qltb 0 ((high_52w + low_52w) / 2)) eqn:Ea.
    + apply Qltb_true in Ea.
      rewrite truediv_ok by lra. cbv beta iota delta [bind].
      eexists. split; [reflexivity |]. intros _ Hh.
      assert (H0 : 0 <= (high_52w - low_52w) / ((high_52w + low_52w) / 2))
        by (apply Qle_shift_div_l; [exact Ea | lra]).
      assert (H2 : (high_52w - low_52w) / ((high_52w + low_52w) / 2) < 2).
      { apply Qlt_shift_div_r; [exact Ea |].
        rewrite Qdiv_lit. lra. }
      split; lra.
    + apply Qltb_false in Ea. exists 0. split; [reflexivity |].
      intros _ Hh. rewrite Qdiv_lit in Ea. lra.
  - apply Qltb_false in El. cbv beta iota delta [bind].
    destruct (Qltb 0 current_price) eqn:Ec.
    + apply Qltb_true in Ec.
      rewrite truediv_ok by lra. cbv beta iota delta [bind].
      eexists. split; [reflexivity |]. intros Hl. lra.
    + exists 0. split; [reflexivity |]. intros Hl. lra.
Qed.

Lemma volatility_estimate_range_witness :
  exists v, volatility_estimate 150 200 100 = Ok v /\ 0 <= v /\ v < 200.
Proof.
  destruct (volatility_estimate_range 150 200 100) as [v [Hv Hr]].
  exists v. split; [exact Hv |].
  apply Hr; vm_compute; [reflexivity | discriminate].
Defined.

(** ** Chapters and the classic chart *)

(** X26. Whatever index is stored, the next chapter index is
    [(idx + 1) mod 3], lies in 0..2 and selects the matching chapter; from
    an index in 0..2, three clicks lead back to it. *)
Theorem next_chapter_cycle (n idx : Z) :
  let c := fst (next_chapter n idx) in
  let i := snd (next_chapter n idx) in
  (i = (idx + 1) mod 3)%Z
  /\ ((i = 0%Z /\ c = chapter1_content)
      \/ (i = 1%Z /\ c = chapter2_content)
      \/ (i = 2%Z /\ c = chapter3_content))
  /\ ((0 <= idx < 3)%Z ->
      forall n2 n3,
        snd (next_chapter n3 (snd (next_chapter n2 i))) = idx).
Proof.
  cbv zeta.
  assert (Hm : (0 <= (idx + 1) mod 3 < 3)%Z)
    by (apply Z.mod_pos_bound; lia).
  assert (Hn : forall k j, (0 <= j < 3)%Z ->
               snd (next_chapter k j) = ((j + 1) mod 3)%Z).
  { intros k j Hj. unfold next_chapter.
    assert (Hjm : (0 <= (j + 1) mod 3 < 3)%Z)
      by (apply Z.mod_pos_bound; lia).
    destruct (Z.eqb_spec ((j + 1) mod 3) 0); [simpl; lia |].
    destruct (Z.eqb_spec ((j + 1) mod 3) 1); simpl; lia. }
  unfold next_chapter at 1 2 3 4 5 6 7 8.
  destruct (Z.eqb_spec ((idx + 1) mod 3) 0) as [E0 | E0];
    [| destruct (Z.eqb_spec ((idx + 1) mod 3) 1) as [E1 | E1]];
    simpl fst; simpl snd.
  - split; [lia |]. split; [auto |].
    intros Hi n2 n3. rewrite !Hn by (try rewrite Hn; lia).
    assert (idx = 2%Z) by (assert (idx = 0 \/ idx = 1 \/ idx = 2)%Z by lia;
      intuition (subst; try discriminate; reflexivity)).
    subst. reflexivity.
  - split; [lia |]. split; [auto |].
    intros Hi n2 n3.
    assert (idx = 0%Z) by (assert (idx = 0 \/ idx = 1 \/ idx = 2)%Z by lia;
      intuition (subst; try discriminate; reflexivity)).
    subst. reflexivity.
  - split; [lia |]. split; [auto |].
    intros Hi n2 n3.
    assert (idx = 1%Z).
    { assert (H : (idx = 0 \/ idx = 1 \/ idx = 2)%Z) by lia.
      destruct H as [-> | [-> | ->]];
        [exfalso; apply E1 | | exfalso; apply E0]; reflexivity. }
    subst. reflexivity.
Qed.

Lemma next_chapter_cycle_witness :
  snd (next_chapter 6 (snd (next_chapter 5 (snd (next_chapter 4 2))))) = 2%Z.
Proof.
  apply (proj2 (proj2 (next_chapter_cycle 4 2))). lia.
Defined.

(** X27. The classic chart cannot be built from an empty snapshot: the
    maximum of no margins raises [ValueError].  From a non-empty one it is
    built, the frontier has one ordinate per abscissa, and there is one
    marker per row, with a size between 10 and 60. *)
Theorem create_rule40_classic_spec (df : list Metrics) :
  (df = [] -> create_rule40_classic df = Raise ValueError)
  /\ (df <> [] ->
      exists s,
        create_rule40_classic df = Ok s
        /\ List.length (y_line s) = List.length (x_line s)
        /\ List.length (intercepts s) = List.length df
        /\ List.length (marker_sizes s) = List.length df
        /\ Forall (fun v => 10 <= v /\ v <= 60) (marker_sizes s)).
Proof.
  split.
  - intros ->. reflexivity.
  - intros Hne.
    assert (Ht : exists top, pymax (col operating_margin df) = Ok top)
      by (destruct df; [congruence | eexists; reflexivity]).
    destruct Ht as [top Ht].
    unfold create_rule40_classic. cbv zeta. rewrite Ht.
    cbv beta iota delta [bind].
    eexists. split; [reflexivity |].
    cbv beta iota delta [x_line y_line intercepts marker_sizes].
    unfold col. split; [apply length_map |].
    split.
    { rewrite length_map, length_combine, !length_map. apply Nat.min_id. }
    split; [rewrite !length_map; reflexivity |].
    apply Forall_forall. intros v Hv. apply in_map_iff in Hv.
    destruct Hv as [c [<- _]].
    unfold pymax2. cmp_cases; unfold pymin2; cmp_cases; lra.
Qed.

Lemma create_rule40_classic_spec_witness :
  create_rule40_classic [] = Raise ValueError
  /\ exists s,
       create_rule40_classic [AAPL; TSLA; NVDA] = Ok s
       /\ Forall (fun v => 10 <= v /\ v <= 60) (marker_sizes s).
Proof.
  split.
  - apply (proj1 (create_rule40_classic_spec [])). reflexivity.
  - destruct (proj2 (create_rule40_classic_spec [AAPL; TSLA; NVDA]))
      as (s & Hs & _ & _ & _ & Hm); [discriminate |].
    exists s. split; assumption.
Defined.

(** ** The solvers in binary64 arithmetic *)

Lemma assign_map2_col (set : Row -> Q -> Row) (op : Q -> Q -> Q)
  (f : Q -> Q) (c c' : Row -> Q) (df : DataFrame) :
  assign set df (series_map2 op (col c df) (map f (col c' df)))
  = map (fun r => set r (op (c r) (f (c' r)))) df.
Proof.
  unfold col. rewrite map_map, series_map2_map, assign_map. reflexivity.
Qed.

Lemma assign_map_col (set : Row -> Q -> Row) (f : Q -> Q) (c : Row -> Q)
  (df : DataFrame) :
  assign set df (map f (col c df)) = map (fun r => set r (f (c r))) df.
Proof.
  unfold col. rewrite map_map, assign_map. reflexivity.
Qed.

(** Without rounding the rounded solvers are the exact ones. *)
Lemma update_positions_fl_exact (df : DataFrame) (dt : Q)
  (bounds : Q * Q * Q * Q) :
  update_positions_fl (fun q => q) df dt bounds
  = update_positions df dt bounds.
Proof. reflexivity. Qed.

Lemma apply_attraction_fl_exact (df : DataFrame) (mode : string)
  (strength : Q) :
  apply_attraction_fl (fun q => q) series_sum df mode strength
  = apply_attraction df mode strength.
Proof. reflexivity. Qed.

Section RoundedFacts.

Variable rnd : Q -> Q.
Variable fsum : Series -> Q.

(** The column program of [update_positions], with rounding, performs
    [step_row_fl] on every row, in order. *)
Lemma update_positions_fl_rowwise (df : DataFrame) (dt : Q)
  (bounds : Q * Q * Q * Q) :
  update_positions_fl rnd df dt bounds = map (step_row_fl rnd dt bounds) df.
Proof.
  destruct bounds as [[[x_min x_max] y_min] y_max].
  cbv delta [update_positions_fl]; cbv beta iota.
  rewrite assign_map2_col; enter_let.
  rewrite assign_map2_col; enter_let.
  do 8 (rewrite loc_update_col; enter_let).
  rewrite !assign_map_col, !map_map.
  match goal with
  | |- map ?F _ = _ => set (f9 := F)
  end.
  apply map_ext. intros r.
  eval_first f r E.
  eval_stage f0 r E E0.
  eval_stage f1 r E0 E1.
  all: eval_stage f2 r E1 E2.
  all: eval_stage f3 r E2 E3.
  all: eval_stage f4 r E3 E4.
  all: eval_stage f5 r E4 E5.
  all: eval_stage f6 r E5 E6.
  all: eval_stage f7 r E6 E7.
  all: eval_stage f8 r E7 E8.
  all: eval_stage f9 r E8 E11.
  all: rewrite E11; unfold step_row_fl, step_axis_fl; simpl.
  all: repeat match goal with
       | H : Qltb _ _ = _ |- _ => rewrite H; simpl
       end.
  all: reflexivity.
Qed.

(** *** What is assumed of the rounding

    Each of these holds for the rounding of binary64 to the nearest float
    (away from overflow), and for no rounding at all. *)
Hypothesis rnd_mono : forall a b, a <= b -> rnd a <= rnd b.
Hypothesis rnd_idem : forall a, rnd (rnd a) == rnd a.
Hypothesis rnd_odd : forall a, rnd (- a) == - rnd a.
Hypothesis rnd_one : rnd 1 == 1.

Lemma rnd_compat (a b : Q) : a == b -> rnd a == rnd b.
Proof.
  intros E. apply Qle_antisym; apply rnd_mono; rewrite E; apply Qle_refl.
Qed.

Lemma rnd_zero : rnd 0 == 0.
Proof.
  pose proof (rnd_odd 0) as H.
  assert (E : rnd (- 0) == rnd 0) by (apply rnd_compat; reflexivity).
  rewrite E in H. lra.
Qed.

Lemma rnd_nonneg (a : Q) : 0 <= a -> 0 <= rnd a.
Proof.
  intros H. rewrite <- rnd_zero. apply rnd_mono. exact H.
Qed.

Lemma rnd_nonpos (a : Q) : a <= 0 -> rnd a <= 0.
Proof.
  intros H. rewrite <- rnd_zero. apply rnd_mono. exact H.
Qed.

Lemma representable_Qabs (u : Q) :
  representable rnd u ->
  representable rnd (Qabs u) /\ representable rnd (- Qabs u).
Proof.
  unfold representable. intros Hu.
  assert (Hn : rnd (- u) == - u) by (rewrite rnd_odd, Hu; reflexivity).
  destruct (Qlt_le_dec u 0) as [H | H].
  - assert (E : Qabs u == - u) by (apply Qabs_neg; lra).
    split.
    + rewrite (rnd_compat _ _ E), E. exact Hn.
    + assert (E' : - Qabs u == u) by (rewrite E; ring).
      rewrite (rnd_compat _ _ E'), E'. exact Hu.
  - assert (E : Qabs u == u) by (apply Qabs_pos; exact H).
    split.
    + rewrite (rnd_compat _ _ E), E. exact Hu.
    + assert (E' : - Qabs u == - u) by (rewrite E; reflexivity).
      rewrite (rnd_compat _ _ E'), E'. exact Hn.
Qed.

(** A float times a factor of magnitude at most 1 is a float that is no
    larger in magnitude. *)
Lemma fmul_shrink (u k : Q) :
  representable rnd u -> -1 <= k -> k <= 1 ->
  Qabs (fmul rnd u k) <= Qabs u /\ representable rnd (fmul rnd u k).
Proof.
  intros Hu Hk0 Hk1. split; [| apply rnd_idem].
  destruct (representable_Qabs u Hu) as [Hp Hm].
  unfold representable in Hp, Hm.
  assert (Hprod : Qabs (u * k) <= Qabs u).
  { rewrite Qabs_Qmult.
    assert (Hk : Qabs k <= 1) by (apply Qabs_Qle_condition; split; lra).
    pose proof (Qabs_nonneg u) as Hu0.
    assert (Qabs u * Qabs k <= Qabs u * 1).
    { rewrite !(Qmult_comm (Qabs u)).
      apply Qmult_le_compat_r; assumption. }
    lra. }
  apply Qabs_Qle_condition in Hprod. destruct Hprod as [Hlo Hhi].
  apply Qabs_Qle_condition. unfold fmul. split.
  - rewrite <- Hm. apply rnd_mono. exact Hlo.
  - rewrite <- Hp. apply rnd_mono. exact Hhi.
Qed.

Lemma lit_098_range : 0 <= lit rnd 0.98 /\ lit rnd 0.98 <= 1.
Proof.
  unfold lit. split.
  - apply rnd_nonneg. lra.
  - rewrite <- rnd_one. apply rnd_mono. lra.
Qed.

(** One axis, case by case on where the computed move ends. *)
Lemma step_axis_fl_cases (p v e dt lo hi : Q) :
  lo <= hi ->
  let p1 := moved rnd p v dt in
  (lo <= p1 -> p1 <= hi ->
   step_axis_fl rnd p v e dt lo hi = (p1, damped rnd v))
  /\ (p1 < lo -> step_axis_fl rnd p v e dt lo hi = (lo, bounced rnd v e))
  /\ (hi < p1 -> step_axis_fl rnd p v e dt lo hi = (hi, bounced rnd v e)).
Proof.
  intros Hb p1. unfold step_axis_fl, moved, damped, bounced in *.
  cbv zeta. fold p1.
  split; [| split]; intros.
  - assert (C1 : Qltb p1 lo = false) by (apply Qltb_false; assumption).
    assert (C2 : Qltb hi p1 = false) by (apply Qltb_false; assumption).
    rewrite C1, C2. reflexivity.
  - assert (C1 : Qltb p1 lo = true) by (apply Qltb_true; assumption).
    assert (C2 : Qltb hi lo = false) by (apply Qltb_false; assumption).
    rewrite C1, C2. reflexivity.
  - assert (C1 : Qltb p1 lo = false) by (apply Qltb_false; lra).
    assert (C2 : Qltb hi p1 = true) by (apply Qltb_true; assumption).
    rewrite C1, C2. reflexivity.
Qed.

(** One axis: with an elasticity between 0 and 1 a float velocity does not
    grow in magnitude. *)
Lemma step_axis_fl_speed (p v e dt lo hi : Q) :
  0 <= e -> e <= 1 -> representable rnd v ->
  Qabs (snd (step_axis_fl rnd p v e dt lo hi)) <= Qabs v.
Proof.
  intros He0 He1 Hv.
  destruct lit_098_range as [L0 L1].
  assert (B1 : Qabs (fmul rnd v (- e)) <= Qabs v
               /\ representable rnd (fmul rnd v (- e)))
    by (apply fmul_shrink; [exact Hv | lra | lra]).
  destruct B1 as [B1 R1].
  assert (B2 : Qabs (fmul rnd (fmul rnd v (- e)) (- e))
               <= Qabs (fmul rnd v (- e))
               /\ representable rnd (fmul rnd (fmul rnd v (- e)) (- e)))
    by (apply fmul_shrink; [exact R1 | lra | lra]).
  destruct B2 as [B2 R2].
  assert (D : forall u, representable rnd u ->
                Qabs (fmul rnd u (lit rnd 0.98)) <= Qabs u).
  { intros u Hu. apply fmul_shrink; [exact Hu | lra | lra]. }
  unfold step_axis_fl. cbv beta iota zeta delta [snd].
  destruct (Qltb (fadd rnd p (fmul rnd v dt)) lo);
    match goal with
    | |- context [Qltb hi ?c] => destruct (Qltb hi c)
    end.
  - eapply Qle_trans; [apply D; exact R2 |].
    eapply Qle_trans; [exact B2 | exact B1].
  - eapply Qle_trans; [apply D; exact R1 | exact B1].
  - eapply Qle_trans; [apply D; exact R1 | exact B1].
  - apply D. exact Hv.
Qed.

Lemma step_row_fl_proj (dt x_min x_max y_min y_max : Q) (r : Row) :
  let r' := step_row_fl rnd dt (x_min, x_max, y_min, y_max) r in
  let px := step_axis_fl rnd (x r) (vx r) (elasticity r) dt x_min x_max in
  let py := step_axis_fl rnd (y r) (vy r) (elasticity r) dt y_min y_max in
  x r' = fst px /\ vx r' = snd px /\ y r' = fst py /\ vy r' = snd py.
Proof. repeat split. Qed.

(** One axis ends between its bounds, whatever the rounding. *)
Lemma step_axis_fl_bounded (p v e dt lo hi : Q) :
  lo <= hi ->
  lo <= fst (step_axis_fl rnd p v e dt lo hi)
  /\ fst (step_axis_fl rnd p v e dt lo hi) <= hi.
Proof.
  intros Hb.
  destruct (step_axis_fl_cases p v e dt lo hi Hb) as (Hin & Hlo & Hhi).
  destruct (Qlt_le_dec (moved rnd p v dt) lo) as [H1 | H1].
  - rewrite (Hlo H1). simpl. lra.
  - destruct (Qlt_le_dec hi (moved rnd p v dt)) as [H2 | H2].
    + rewrite (Hhi H2). simpl. lra.
    + rewrite (Hin H1 H2). simpl. lra.
Qed.

(** X28. With rounded arithmetic too, whatever the rounding, after one
    tick every row is still there, in its place, and its position lies
    inside the bounding rectangle. *)
Theorem update_positions_fl_in_bounds (df : DataFrame)
  (time_delta x_min x_max y_min y_max : Q) :
  x_min <= x_max -> y_min <= y_max ->
  Forall2
    (fun r r' =>
       metrics r' = metrics r
       /\ in_bounds (x_min, x_max, y_min, y_max) r')
    df (update_positions_fl rnd df time_delta (x_min, x_max, y_min, y_max)).
Proof.
  intros Hx Hy. rewrite update_positions_fl_rowwise.
  apply Forall2_map_self. intros r _.
  split; [reflexivity |].
  destruct (step_row_fl_proj time_delta x_min x_max y_min y_max r)
    as (Px & _ & Py & _).
  unfold in_bounds. rewrite Px, Py.
  destruct (step_axis_fl_bounded (x r) (vx r) (elasticity r) time_delta
              x_min x_max Hx) as [? ?].
  destruct (step_axis_fl_bounded (y r) (vy r) (elasticity r) time_delta
              y_min y_max Hy) as [? ?].
  split; [| split; [| split]]; assumption.
Qed.

(** C5 (amended). An entity placed exactly on [x_max], a float, with a
    positive [vx] is on [x_max] after a tick with a positive time step; its
    [vx] becomes [(vx * -elasticity) * 0.98] when the moved coordinate
    [x + vx * time_delta], as the program computes it, exceeds [x_max],
    and [vx * 0.98] when the step is too small to show in that sum.  For
    every entity with float velocities and an elasticity between 0 and 1,
    neither velocity component is larger in magnitude after the tick than
    before. *)
Theorem update_positions_bounce (df : DataFrame)
  (time_delta x_min x_max y_min y_max : Q) :
  Forall2
    (fun r r' =>
       (x_min < x_max -> representable rnd x_max ->
        0 < time_delta -> x r == x_max -> 0 < vx r ->
        x r' == x_max
        /\ (x_max < moved rnd (x r) (vx r) time_delta ->
            vx r' = bounced rnd (vx r) (elasticity r))
        /\ (moved rnd (x r) (vx r) time_delta <= x_max ->
            vx r' = damped rnd (vx r)))
       /\ (0 <= elasticity r -> elasticity r <= 1 ->
           representable rnd (vx r) -> representable rnd (vy r) ->
           Qabs (vx r') <= Qabs (vx r) /\ Qabs (vy r') <= Qabs (vy r)))
    df (update_positions_fl rnd df time_delta (x_min, x_max, y_min, y_max)).
Proof.
  rewrite update_positions_fl_rowwise.
  apply Forall2_map_self. intros r _.
  destruct (step_row_fl_proj time_delta x_min x_max y_min y_max r)
    as (Px & Pvx & _ & Pvy).
  rewrite Px, Pvx, Pvy. split.
  - intros Hb Hrep Hdt Hx Hv.
    assert (Hge : x_max <= moved rnd (x r) (vx r) time_delta).
    { unfold representable in Hrep. unfold moved, fadd, fmul.
      apply Qle_trans with (rnd x_max); [rewrite Hrep; apply Qle_refl |].
      apply rnd_mono.
      assert (0 <= rnd (vx r * time_delta)).
      { apply rnd_nonneg. apply Qmult_le_0_compat; lra. }
      lra. }
    destruct (step_axis_fl_cases (x r) (vx r) (elasticity r) time_delta
                x_min x_max) as (In1 & _ & Up1); [lra |].
    cbv zeta in In1, Up1.
    destruct (Qlt_le_dec x_max (moved rnd (x r) (vx r) time_delta))
      as [Hup | Hin].
    + rewrite (Up1 Hup). simpl fst. simpl snd.
      split; [reflexivity |]. split; [reflexivity |].
      intros Hle. lra.
    + rewrite In1 by lra. simpl fst. simpl snd.
      split; [lra |]. split; [| reflexivity].
      intros Hlt. lra.
  - intros He0 He1 Hvx Hvy. split; apply step_axis_fl_speed; assumption.
Qed.

(** X18. What a tick does on each axis, with the bounds in order and
    [x1], [y1] the coordinates after the move as the program computes
    them: a row whose move ends inside the bounds is moved and damped; one
    that ends beyond a wall is put on that wall, and its velocity is
    reflected, scaled by the elasticity and damped. *)
Theorem update_positions_cases (df : DataFrame)
  (time_delta x_min x_max y_min y_max : Q) :
  x_min <= x_max -> y_min <= y_max ->
  Forall2
    (fun r r' =>
       let x1 := moved rnd (x r) (vx r) time_delta in
       let y1 := moved rnd (y r) (vy r) time_delta in
       (x_min <= x1 -> x1 <= x_max ->
        x r' = x1 /\ vx r' = damped rnd (vx r))
       /\ (x1 < x_min ->
           x r' = x_min /\ vx r' = bounced rnd (vx r) (elasticity r))
       /\ (x_max < x1 ->
           x r' = x_max /\ vx r' = bounced rnd (vx r) (elasticity r))
       /\ (y_min <= y1 -> y1 <= y_max ->
           y r' = y1 /\ vy r' = damped rnd (vy r))
       /\ (y1 < y_min ->
           y r' = y_min /\ vy r' = bounced rnd (vy r) (elasticity r))
       /\ (y_max < y1 ->
           y r' = y_max /\ vy r' = bounced rnd (vy r) (elasticity r)))
    df (update_positions_fl rnd df time_delta (x_min, x_max, y_min, y_max)).
Proof.
  intros Hx Hy. rewrite update_positions_fl_rowwise.
  apply Forall2_map_self. intros r _.
  pose proof (step_axis_fl_cases (x r) (vx r) (elasticity r) time_delta
                x_min x_max Hx) as HX.
  pose proof (step_axis_fl_cases (y r) (vy r) (elasticity r) time_delta
                y_min y_max Hy) as HY.
  cbv zeta in *. destruct HX as (X1 & X2 & X3).
  destruct HY as (Y1 & Y2 & Y3).
  destruct (step_row_fl_proj time_delta x_min x_max y_min y_max r)
    as (Px & Pvx & Py & Pvy).
  rewrite Px, Pvx, Py, Pvy.
  split; [intros A B; rewrite (X1 A B); split; reflexivity |].
  split; [intros A; rewrite (X2 A); split; reflexivity |].
  split; [intros A; rewrite (X3 A); split; reflexivity |].
  split; [intros A B; rewrite (Y1 A B); split; reflexivity |].
  split; [intros A; rewrite (Y2 A); split; reflexivity |].
  intros A; rewrite (Y3 A); split; reflexivity.
Qed.

(** *** The attraction solver *)

(** The literal 0.001 is a positive float, and a sum of positive floats is
    positive, in whatever order it is taken. *)
Hypothesis rnd_eps : 0 < rnd 0.001.
Hypothesis fsum_pos :
  forall s, s <> [] -> (forall a, In a s -> 0 < a) -> 0 < fsum s.

Lemma recognized_weight_column (mode : string) (metric : Row -> Q) :
  In (mode, metric) recognized_modes -> weight_column mode = Some metric.
Proof.
  intros [H | [H | [H | [H | []]]]]; injection H as <- <-; reflexivity.
Qed.

(** X29. The mode selects the weighting column by the table of the
    recognized modes and by nothing else; with any other mode the call
    returns the collection as it is, in exact and in rounded arithmetic. *)
Theorem weight_column_table (mode : string) :
  (forall metric,
     weight_column mode = Some metric
     <-> In (mode, metric) recognized_modes)
  /\ (weight_column mode = None ->
      forall df strength,
        apply_attraction df mode strength = Ok df
        /\ apply_attraction_fl rnd fsum df mode strength = Ok df).
Proof.
  split.
  - intros metric. split; [| apply recognized_weight_column].
    unfold weight_column, recognized_modes.
    destruct (String.eqb mode "value") eqn:E1.
    { apply String.eqb_eq in E1. subst mode. intros H. injection H as <-.
      left. reflexivity. }
    destruct (String.eqb mode "growth") eqn:E2.
    { apply String.eqb_eq in E2. subst mode. intros H. injection H as <-.
      right. left. reflexivity. }
    destruct (String.eqb mode "profit") eqn:E3.
    { apply String.eqb_eq in E3. subst mode. intros H. injection H as <-.
      right. right. left. reflexivity. }
    destruct (String.eqb mode "size") eqn:E4.
    { apply String.eqb_eq in E4. subst mode. intros H. injection H as <-.
      right. right. right. left. reflexivity. }
    discriminate.
  - intros H df strength.
    unfold apply_attraction, apply_attraction_fl. rewrite H.
    split; reflexivity.
Qed.

(** The denominator of line 220 is positive, and at least the rounded
    spread. *)
Lemma weight_den_pos (s : Series) :
  let den := fadd rnd (fsub rnd (col_max s) (col_min s)) (lit rnd 0.001) in
  0 < den /\ fsub rnd (col_max s) (col_min s) <= den.
Proof.
  cbv zeta. unfold fadd, fsub, lit.
  pose proof (col_min_le_max s) as Hle.
  assert (Ha : 0 <= rnd (col_max s - col_min s))
    by (apply rnd_nonneg; lra).
  split.
  - apply Qlt_le_trans with (rnd (rnd 0.001)).
    + rewrite rnd_idem. exact rnd_eps.
    + apply rnd_mono. lra.
  - apply Qle_trans with (rnd (rnd (col_max s - col_min s))).
    + rewrite rnd_idem. apply Qle_refl.
    + apply rnd_mono. lra.
Qed.

Lemma apply_series_map_ok {A B : Type} (f : A -> result B) (g : A -> B)
  (l : list A) :
  (forall a, f a = Ok (g a)) -> apply_series f l = Ok (map g l).
Proof.
  intros H. induction l as [| a l IH]; simpl; [reflexivity |].
  rewrite H, IH. reflexivity.
Qed.

Lemma fdiv_ok (a b : Q) : ~ b == 0 -> fdiv rnd a b = Ok (rnd (a / b)).
Proof.
  intros H. unfold fdiv. apply Qeq_bool_false in H. rewrite H. reflexivity.
Qed.

(** Line 220 never divides by zero, and computes [weight_of_fl]. *)
Lemma normalize_weights_fl_ok (metric : Row -> Q) (df : DataFrame) :
  normalize_weights_fl rnd (col metric df)
  = Ok (map (weight_of_fl rnd metric df) df).
Proof.
  unfold normalize_weights_fl, weight_of_fl.
  destruct df as [| r0 df0]; [reflexivity |].
  remember (r0 :: df0) as df eqn:Edf.
  assert (Emin : series_min (col metric df) = Some (col_min (col metric df)))
    by (rewrite Edf; reflexivity).
  assert (Emax : series_max (col metric df) = Some (col_max (col metric df)))
    by (rewrite Edf; reflexivity).
  rewrite Emin, Emax. clear Emin Emax Edf.
  destruct (weight_den_pos (col metric df)) as [Hden _].
  cbv zeta in Hden.
  rewrite (apply_series_map_ok _
             (fun a => rnd (a / fadd rnd (fsub rnd (col_max (col metric df))
                                            (col_min (col metric df)))
                                         (lit rnd 0.001)))).
  - unfold col. rewrite !map_map. reflexivity.
  - intros a. apply fdiv_ok. lra.
Qed.

(** The two assignments of lines 229-230 perform [pull_fl] on every
    row. *)
Lemma pull_fl_rowwise (df : DataFrame) (w : Row -> Q) (cx cy strength : Q) :
  assign set_vy
    (assign set_vx df
       (series_map2 (fadd rnd) (col vx df)
          (series_map2 (fmul rnd)
             (map (fun a => fmul rnd a strength)
                  (map (fun a => fsub rnd cx a) (col x df)))
             (map (fun a => fsub rnd 1 a) (map w df)))))
    (series_map2 (fadd rnd)
       (col vy
          (assign set_vx df
             (series_map2 (fadd rnd) (col vx df)
                (series_map2 (fmul rnd)
                   (map (fun a => fmul rnd a strength)
                        (map (fun a => fsub rnd cx a) (col x df)))
                   (map (fun a => fsub rnd 1 a) (map w df))))))
       (series_map2 (fmul rnd)
          (map (fun a => fmul rnd a strength)
               (map (fun a => fsub rnd cy a)
                    (col y
                       (assign set_vx df
                          (series_map2 (fadd rnd) (col vx df)
                             (series_map2 (fmul rnd)
                                (map (fun a => fmul rnd a strength)
                                     (map (fun a => fsub rnd cx a)
                                          (col x df)))
                                (map (fun a => fsub rnd 1 a)
                                     (map w df))))))))
          (map (fun a => fsub rnd 1 a) (map w df))))
  = map (fun r => pull_fl rnd cx cy strength (w r) r) df.
Proof.
  unfold col.
  rewrite !map_map, !series_map2_map, assign_map.
  rewrite !map_map, !series_map2_map, assign_map_gen.
  reflexivity.
Qed.

Lemma lit_07_nonneg : 0 <= lit rnd 0.7.
Proof. unfold lit. apply rnd_nonneg. lra. Qed.

(** What [apply_attraction], with rounding, returns for a recognized
    mode. *)
Lemma apply_attraction_fl_rowwise (df : DataFrame) (mode : string)
  (strength : Q) (metric : Row -> Q) :
  weight_column mode = Some metric ->
  let w := weight_of_fl rnd metric df in
  let A := attractors_fl rnd metric df in
  (A = [] /\ apply_attraction_fl rnd fsum df mode strength = Ok df)
  \/ (A <> []
      /\ apply_attraction_fl rnd fsum df mode strength
         = Ok (map (fun r => pull_fl rnd (centroid_fl rnd fsum w x A)
                               (centroid_fl rnd fsum w y A) strength
                               (w r) r) df)).
Proof.
  intros Hmode w A. unfold apply_attraction_fl. rewrite Hmode.
  rewrite normalize_weights_fl_ok. fold w.
  cbv beta iota delta [bind].
  unfold high_value_mask_fl. rewrite map_map.
  set (p := fun r : Row => Qltb (lit rnd 0.7) (w r)).
  rewrite mask_sum_map, (select_map p w df).
  change (select (map p df) (col x df)) with (select (map p df) (map x df)).
  change (select (map p df) (col y df)) with (select (map p df) (map y df)).
  rewrite !(select_map p).
  change (filter p df) with A.
  rewrite !series_map2_map.
  destruct A as [| a0 rows] eqn:EA.
  - left. split; reflexivity.
  - right. split; [discriminate |]. rewrite <- EA.
    assert (Hs : ~ fsum (map w A) == 0).
    { assert (0 < fsum (map w A)); [| lra].
      apply fsum_pos.
      - rewrite EA. discriminate.
      - intros a Ha. apply in_map_iff in Ha. destruct Ha as [r [<- Hr]].
        unfold A, attractors_fl in Hr. apply filter_In in Hr.
        destruct Hr as [_ Hr]. apply Qltb_true in Hr. fold w in Hr.
        pose proof lit_07_nonneg. lra. }
    replace (Nat.ltb 0 (List.length A)) with true
      by (rewrite EA; reflexivity).
    rewrite !fdiv_ok by exact Hs. cbv beta iota delta [bind].
    rewrite pull_fl_rowwise. reflexivity.
Qed.

(** C1. For each of the four modes, weighing by its own column, the call
    returns; when the attractor set (the rows whose computed normalized
    weight exceeds 0.7) is not empty, every row's velocity has gained
    [(centroid - position) * strength * (1 - weight)] on each axis, in the
    operations of the program, the centroid being the weighted mean of the
    positions over the attractor set alone; when the attractor set is
    empty, every velocity is as before. *)
Theorem apply_attraction_pull (df : DataFrame) (mode : string)
  (strength : Q) (metric : Row -> Q) :
  In (mode, metric) recognized_modes ->
  let w := weight_of_fl rnd metric df in
  let A := attractors_fl rnd metric df in
  let cx := centroid_fl rnd fsum w x A in
  let cy := centroid_fl rnd fsum w y A in
  exists out,
    apply_attraction_fl rnd fsum df mode strength = Ok out
    /\ (A <> [] ->
        Forall2
          (fun r r' =>
             vx r' = fadd rnd (vx r)
                       (fmul rnd (fmul rnd (fsub rnd cx (x r)) strength)
                                 (fsub rnd 1 (w r)))
             /\ vy r' = fadd rnd (vy r)
                          (fmul rnd (fmul rnd (fsub rnd cy (y r)) strength)
                                    (fsub rnd 1 (w r))))
          df out)
    /\ (A = [] -> Forall2 (fun r r' => vx r' = vx r /\ vy r' = vy r) df out).
Proof.
  intros Hin w A cx cy.
  pose proof (recognized_weight_column mode metric Hin) as Hmode.
  destruct (apply_attraction_fl_rowwise df mode strength metric Hmode)
    as [[HA Hout] | [HA Hout]]; fold w A in HA, Hout; fold cx cy in Hout.
  - exists df. split; [exact Hout |]. split.
    + intros Hne. contradiction.
    + intros _. apply Forall2_diag. auto.
  - eexists. split; [exact Hout |]. split.
    + intros _. apply Forall2_map_self. intros r _. split; reflexivity.
    + intros HE. contradiction.
Qed.

(** Every computed weight of a row of the collection is at most 1. *)
Lemma weight_of_fl_le_1 (metric : Row -> Q) (df : DataFrame) (r : Row) :
  In r df -> weight_of_fl rnd metric df r <= 1.
Proof.
  intros Hr.
  destruct (col_bounds (col metric df) (metric r)) as [Hlo Hhi].
  { unfold col. apply in_map. exact Hr. }
  destruct (weight_den_pos (col metric df)) as [Hden Hsp].
  cbv zeta in Hden, Hsp.
  unfold weight_of_fl. rewrite <- rnd_one. apply rnd_mono.
  apply Qle_shift_div_r; [exact Hden |].
  apply Qle_trans with (fsub rnd (col_max (col metric df))
                                 (col_min (col metric df))); [| lra].
  unfold fsub. apply rnd_mono. lra.
Qed.

(** The velocity gained has the sign of the offset to the centroid. *)
Lemma pull_term_sign (c p strength w v : Q) :
  0 <= strength -> w <= 1 -> representable rnd v ->
  0 <= (fadd rnd v (pull_term rnd c p strength w) - v) * (c - p).
Proof.
  intros Hs Hw Hv. unfold representable in Hv.
  assert (H1 : 0 <= fsub rnd 1 w) by (apply rnd_nonneg; lra).
  unfold pull_term.
  destruct (Qlt_le_dec (c - p) 0) as [Hneg | Hpos].
  - assert (A1 : fsub rnd c p <= 0) by (apply rnd_nonpos; lra).
    assert (A2 : fmul rnd (fsub rnd c p) strength <= 0).
    { apply rnd_nonpos.
      assert (0 <= (- fsub rnd c p) * strength)
        by (apply Qmult_le_0_compat; lra).
      assert (E : (- fsub rnd c p) * strength
                  == - (fsub rnd c p * strength)) by ring.
      lra. }
    assert (A3 : fmul rnd (fmul rnd (fsub rnd c p) strength) (fsub rnd 1 w)
                 <= 0).
    { apply rnd_nonpos.
      assert (0 <= (- fmul rnd (fsub rnd c p) strength) * fsub rnd 1 w)
        by (apply Qmult_le_0_compat; lra).
      assert (E : (- fmul rnd (fsub rnd c p) strength) * fsub rnd 1 w
                  == - (fmul rnd (fsub rnd c p) strength * fsub rnd 1 w))
        by ring.
      lra. }
    set (T := fmul rnd (fmul rnd (fsub rnd c p) strength) (fsub rnd 1 w))
      in *.
    assert (A4 : fadd rnd v T <= v).
    { unfold fadd. apply Qle_trans with (rnd v); [| lra].
      apply rnd_mono. lra. }
    assert (E : (fadd rnd v T - v) * (c - p)
                == (v - fadd rnd v T) * (p - c)) by ring.
    rewrite E. apply Qmult_le_0_compat; lra.
  - assert (A1 : 0 <= fsub rnd c p) by (apply rnd_nonneg; lra).
    assert (A2 : 0 <= fmul rnd (fsub rnd c p) strength)
      by (apply rnd_nonneg; apply Qmult_le_0_compat; lra).
    assert (A3 : 0 <= fmul rnd (fmul rnd (fsub rnd c p) strength)
                               (fsub rnd 1 w))
      by (apply rnd_nonneg; apply Qmult_le_0_compat; lra).
    set (T := fmul rnd (fmul rnd (fsub rnd c p) strength) (fsub rnd 1 w))
      in *.
    assert (A4 : v <= fadd rnd v T).
    { unfold fadd. apply Qle_trans with (rnd v); [lra |].
      apply rnd_mono. lra. }
    apply Qmult_le_0_compat; lra.
Qed.

(** X14. For a recognized mode, a non-negative strength and float
    velocities, no row is pushed away from the centroid that the program
    computes: on each axis the velocity change has the sign of the offset
    from the row to the centroid. *)
Theorem apply_attraction_toward_centroid (df : DataFrame) (mode : string)
  (strength : Q) (metric : Row -> Q) :
  In (mode, metric) recognized_modes -> 0 <= strength ->
  (forall r, In r df ->
     representable rnd (vx r) /\ representable rnd (vy r)) ->
  let w := weight_of_fl rnd metric df in
  let A := attractors_fl rnd metric df in
  exists out,
    apply_attraction_fl rnd fsum df mode strength = Ok out
    /\ Forall2
         (fun r r' =>
            0 <= (vx r' - vx r) * (centroid_fl rnd fsum w x A - x r)
            /\ 0 <= (vy r' - vy r) * (centroid_fl rnd fsum w y A - y r))
         df out.
Proof.
  intros Hin Hs Hrep w A.
  pose proof (recognized_weight_column mode metric Hin) as Hmode.
  destruct (apply_attraction_fl_rowwise df mode strength metric Hmode)
    as [[HA Hout] | [HA Hout]]; fold w A in HA, Hout.
  - exists df. split; [exact Hout |].
    apply Forall2_diag. intros r. split; lra.
  - eexists. split; [exact Hout |].
    apply Forall2_map_self. intros r Hr.
    destruct (Hrep r Hr) as [Hvx Hvy].
    pose proof (weight_of_fl_le_1 metric df r Hr) as Hw. fold w in Hw.
    split.
    + apply (pull_term_sign _ (x r) strength (w r) (vx r)); assumption.
    + apply (pull_term_sign _ (y r) strength (w r) (vy r)); assumption.
Qed.

(** The computed weight does not decrease with the metric. *)
Lemma weight_of_fl_mono (metric : Row -> Q) (df : DataFrame) (r1 r2 : Row) :
  metric r1 <= metric r2 ->
  weight_of_fl rnd metric df r1 <= weight_of_fl rnd metric df r2.
Proof.
  intros H. destruct (weight_den_pos (col metric df)) as [Hden _].
  cbv zeta in Hden. unfold weight_of_fl. apply rnd_mono.
  unfold Qdiv. apply Qmult_le_compat_r.
  - unfold fsub. apply rnd_mono. lra.
  - apply Qinv_le_0_compat. lra.
Qed.

(** X16. The attractor set is non-empty exactly when the row with the
    largest metric is an attractor; when no row is, the call returns the
    collection as it is, for every recognized mode and every strength. *)
Theorem attractors_nonempty_iff (metric : Row -> Q) (df : DataFrame) :
  (attractors_fl rnd metric df <> []
   <-> exists r, In r df /\ metric r = col_max (col metric df)
                 /\ lit rnd 0.7 < weight_of_fl rnd metric df r)
  /\ (forall mode strength,
        In (mode, metric) recognized_modes ->
        attractors_fl rnd metric df = [] ->
        apply_attraction_fl rnd fsum df mode strength = Ok df).
Proof.
  split; [split |].
  - intros Hne.
    destruct (attractors_fl rnd metric df) as [| r rows] eqn:EA;
      [congruence |].
    assert (Hr : In r (attractors_fl rnd metric df))
      by (rewrite EA; left; reflexivity).
    apply filter_In in Hr. destruct Hr as [Hin Hw]. apply Qltb_true in Hw.
    assert (Hcol : col metric df <> [])
      by (unfold col; destruct df; [destruct Hin | discriminate]).
    pose proof (col_max_in _ Hcol) as Hmax.
    unfold col in Hmax at 2. apply in_map_iff in Hmax.
    destruct Hmax as [rm [Erm Hrm]].
    exists rm. split; [exact Hrm |]. split; [exact Erm |].
    eapply Qlt_le_trans; [exact Hw |].
    apply weight_of_fl_mono. rewrite Erm.
    apply col_bounds. unfold col. apply in_map. exact Hin.
  - intros [r (Hin & _ & Hw)] Hempty.
    assert (HA : In r (attractors_fl rnd metric df)).
    { apply filter_In. split; [exact Hin |]. apply Qltb_true. exact Hw. }
    rewrite Hempty in HA. destruct HA.
  - intros mode strength Hin Hempty.
    pose proof (recognized_weight_column mode metric Hin) as Hmode.
    destruct (apply_attraction_fl_rowwise df mode strength metric Hmode)
      as [[_ Hout] | [HA _]]; [exact Hout | contradiction].
Qed.

End RoundedFacts.

(** ** The rounding of binary64

    [b64] has the properties that the facts above ask of a rounding, and
    the sum from left to right of positive numbers is positive. *)

(** *** Rounding to the nearest integer *)

Lemma Qfloor_bounds (q : Q) :
  inject_Z (Qfloor q) <= q /\ q < inject_Z (Qfloor q) + 1.
Proof.
  split; [apply Qfloor_le |].
  pose proof (Qlt_floor q) as H. rewrite inject_Z_plus in H. exact H.
Qed.

Lemma inject_Z_le (a b : Z) : inject_Z a <= inject_Z b -> (a <= b)%Z.
Proof. rewrite <- Zle_Qle. auto. Qed.

Lemma inject_Z_lt (a b : Z) : inject_Z a < inject_Z b -> (a < b)%Z.
Proof. rewrite <- Zlt_Qlt. auto. Qed.

Lemma rne_near (q : Q) :
  (Qfloor q <= rne q <= Qfloor q + 1)%Z.
Proof.
  unfold rne.
  destruct (Qltb _ _); [lia |].
  destruct (Qltb _ _); [lia |].
  destruct (Z.even _); lia.
Qed.

Lemma rne_mono (a b : Q) : a <= b -> (rne a <= rne b)%Z.
Proof.
  intros Hab.
  pose proof (Qfloor_resp_le _ _ Hab) as Hf.
  destruct (Z.eq_dec (Qfloor a) (Qfloor b)) as [E | E].
  - unfold rne. rewrite E.
    destruct (Qltb (a - inject_Z (Qfloor b)) (1 # 2)) eqn:A1;
      [apply Qltb_true in A1 | apply Qltb_false in A1];
    (destruct (Qltb (1 # 2) (a - inject_Z (Qfloor b))) eqn:A2;
      [apply Qltb_true in A2 | apply Qltb_false in A2]);
    (destruct (Qltb (b - inject_Z (Qfloor b)) (1 # 2)) eqn:B1;
      [apply Qltb_true in B1 | apply Qltb_false in B1]);
    (destruct (Qltb (1 # 2) (b - inject_Z (Qfloor b))) eqn:B2;
      [apply Qltb_true in B2 | apply Qltb_false in B2]);
    destruct (Z.even (Qfloor b)); try lia; exfalso; lra.
  - pose proof (rne_near a). pose proof (rne_near b). lia.
Qed.

Lemma rne_compat (a b : Q) : a == b -> rne a = rne b.
Proof.
  intros H. apply Z.le_antisymm; apply rne_mono; lra.
Qed.

Lemma rne_Z (z : Z) : rne (inject_Z z) = z.
Proof.
  unfold rne. rewrite Qfloor_Z.
  assert (E : Qltb (inject_Z z - inject_Z z) (1 # 2) = true)
    by (apply Qltb_true; lra).
  rewrite E. reflexivity.
Qed.

Lemma even_opp_pred (f : Z) : Z.even (- f - 1) = negb (Z.even f).
Proof.
  rewrite Z.even_sub, Z.even_opp. simpl. destruct (Z.even f); reflexivity.
Qed.

Lemma rne_opp (q : Q) : rne (- q) = (- rne q)%Z.
Proof.
  destruct (Qfloor_bounds q) as [F1 F2].
  destruct (Qfloor_bounds (- q)) as [G1 G2].
  assert (Hg1 : (Qfloor (- q) <= - Qfloor q)%Z).
  { apply inject_Z_le. rewrite inject_Z_opp. lra. }
  assert (Hg2 : (- Qfloor q - 1 <= Qfloor (- q))%Z).
  { assert ((- Qfloor q - 1 < Qfloor (- q) + 1)%Z); [| lia].
    apply inject_Z_lt.
    unfold Z.sub. rewrite !inject_Z_plus, !inject_Z_opp.
    change (inject_Z 1) with 1. lra. }
  destruct (Z.eq_dec (Qfloor (- q)) (- Qfloor q)) as [E | E].
  - unfold rne. rewrite E. rewrite inject_Z_opp.
    assert (A : Qltb (- q - - inject_Z (Qfloor q)) (1 # 2) = true).
    { apply Qltb_true. rewrite E, inject_Z_opp in G1. lra. }
    assert (B : Qltb (q - inject_Z (Qfloor q)) (1 # 2) = true).
    { apply Qltb_true. rewrite E, inject_Z_opp in G1. lra. }
    rewrite A, B. reflexivity.
  - assert (E' : Qfloor (- q) = (- Qfloor q - 1)%Z) by lia.
    unfold rne. rewrite E', even_opp_pred.
    unfold Z.sub. rewrite !inject_Z_plus, !inject_Z_opp.
    change (inject_Z 1) with 1.
    destruct (Qltb (q - inject_Z (Qfloor q)) (1 # 2)) eqn:A1;
      [apply Qltb_true in A1 | apply Qltb_false in A1];
    (destruct (Qltb (1 # 2) (q - inject_Z (Qfloor q))) eqn:A2;
      [apply Qltb_true in A2 | apply Qltb_false in A2]);
    (destruct (Qltb (- q - (- inject_Z (Qfloor q) + - (1))) (1 # 2)) eqn:B1;
      [apply Qltb_true in B1 | apply Qltb_false in B1]);
    (destruct (Qltb (1 # 2) (- q - (- inject_Z (Qfloor q) + - (1)))) eqn:B2;
      [apply Qltb_true in B2 | apply Qltb_false in B2]);
    destruct (Z.even (Qfloor q)); simpl negb; cbv iota; try lia;
      exfalso; try lra.
    all: rewrite E', inject_Z_plus, inject_Z_opp in G1;
         unfold Z.sub in G1; rewrite ?inject_Z_plus, ?inject_Z_opp in G1;
         try lra.
Qed.

(** *** Powers of two *)

Lemma pow2_pos (e : Z) : 0 < 2 ^ e.
Proof. apply Qpower_0_lt. reflexivity. Qed.

Lemma pow2_add (a b : Z) : 2 ^ (a + b) == 2 ^ a * 2 ^ b.
Proof. apply Qpower_plus. discriminate. Qed.

Lemma pow2_le (a b : Z) : (a <= b)%Z -> 2 ^ a <= 2 ^ b.
Proof. intros H. apply Qpower_le_compat_l; [exact H | discriminate]. Qed.

Lemma pow2_inject (n : Z) : (0 <= n)%Z -> inject_Z (2 ^ n) == 2 ^ n.
Proof. intros H. apply (Zpower_Qpower 2 n H). Qed.

Lemma pow2_div (a e : Z) : 2 ^ a / 2 ^ e == 2 ^ (a - e).
Proof. symmetry. apply Qpower_minus. discriminate. Qed.

(** *** The binary exponent *)

Lemma log2_bounds (n : Z) :
  (0 < n)%Z ->
  2 ^ Z.log2 n <= inject_Z n /\ inject_Z n < 2 ^ (Z.log2 n + 1).
Proof.
  intros Hn. destruct (Z.log2_spec n Hn) as [L U].
  pose proof (Z.log2_nonneg n) as H0.
  split.
  - rewrite <- pow2_inject by exact H0. rewrite <- Zle_Qle. exact L.
  - rewrite <- pow2_inject by lia. rewrite <- Zlt_Qlt. exact U.
Qed.

Lemma flog2_spec (q : Q) :
  0 < q -> 2 ^ flog2 q <= q /\ q < 2 ^ (flog2 q + 1).
Proof.
  intros Hq.
  assert (Hn : (0 < Qnum q)%Z).
  { destruct q as [n d]. unfold Qlt in Hq. simpl in *. lia. }
  destruct (log2_bounds (Qnum q) Hn) as [N1 N2].
  destruct (log2_bounds (Zpos (Qden q)) eq_refl) as [D1 D2].
  assert (HD : 0 < inject_Z (Zpos (Qden q))) by reflexivity.
  assert (Eq : q * inject_Z (Zpos (Qden q)) == inject_Z (Qnum q)).
  { destruct q as [n d]. unfold Qeq. simpl.
    rewrite Pos.mul_1_r. ring. }
  set (ln := Z.log2 (Qnum q)) in *.
  set (ld := Z.log2 (Zpos (Qden q))) in *.
  set (D := inject_Z (Zpos (Qden q))) in *.
  set (N := inject_Z (Qnum q)) in *.
  assert (Up : q < 2 ^ (ln - ld + 1)).
  { apply (Qmult_lt_r _ _ D HD). rewrite Eq.
    apply Qlt_le_trans with (2 ^ (ln + 1)); [exact N2 |].
    replace (ln + 1)%Z with ((ln - ld + 1) + ld)%Z by lia.
    rewrite pow2_add.
    apply Qmult_le_l; [apply pow2_pos | exact D1]. }
  assert (Lo : 2 ^ (ln - ld - 1) < q).
  { apply (Qmult_lt_r _ _ D HD). rewrite Eq.
    apply Qlt_le_trans with (2 ^ ln); [| exact N1].
    replace ln with ((ln - ld - 1) + (ld + 1))%Z at 2 by lia.
    rewrite pow2_add.
    apply Qmult_lt_l; [apply pow2_pos | exact D2]. }
  unfold flog2. fold ln ld.
  destruct (Qle_bool (2 ^ (ln - ld)) q) eqn:E.
  - apply Qle_bool_iff in E. split; [exact E | exact Up].
  - apply Qle_bool_false in E.
    replace (ln - ld - 1 + 1)%Z with (ln - ld)%Z by lia.
    split; [apply Qlt_le_weak; exact Lo | exact E].
Qed.

Lemma flog2_unique (q : Q) (j : Z) :
  2 ^ j <= q -> q < 2 ^ (j + 1) -> flog2 q = j.
Proof.
  intros L U.
  assert (Hq : 0 < q) by (pose proof (pow2_pos j); lra).
  destruct (flog2_spec q Hq) as [L' U'].
  destruct (Z.lt_trichotomy (flog2 q) j) as [H | [H | H]]; [| exact H |].
  - pose proof (pow2_le (flog2 q + 1) j ltac:(lia)). lra.
  - pose proof (pow2_le (j + 1) (flog2 q) ltac:(lia)). lra.
Qed.

Lemma flog2_mono (a b : Q) : 0 < a -> a <= b -> (flog2 a <= flog2 b)%Z.
Proof.
  intros Ha Hab.
  destruct (flog2_spec a Ha) as [La Ua].
  destruct (flog2_spec b ltac:(lra)) as [Lb Ub].
  destruct (Z_le_gt_dec (flog2 a) (flog2 b)) as [H | H]; [exact H |].
  pose proof (pow2_le (flog2 b + 1) (flog2 a) ltac:(lia)). lra.
Qed.

Lemma flog2_compat (a b : Q) : 0 < a -> a == b -> flog2 a = flog2 b.
Proof.
  intros Ha E. apply Z.le_antisymm; apply flog2_mono; lra.
Qed.

(** *** Rounding a positive number *)

Lemma scaled_range (q : Q) :
  0 < q ->
  2 ^ 52 <= q / 2 ^ (flog2 q - 52) /\ q / 2 ^ (flog2 q - 52) < 2 ^ 53.
Proof.
  intros Hq. destruct (flog2_spec q Hq) as [L U].
  pose proof (pow2_pos (flog2 q - 52)) as Hp.
  split.
  - apply Qle_shift_div_l; [exact Hp |].
    rewrite <- pow2_add.
    replace (52 + (flog2 q - 52))%Z with (flog2 q) by lia. exact L.
  - apply Qlt_shift_div_r; [exact Hp |].
    rewrite <- pow2_add.
    replace (53 + (flog2 q - 52))%Z with (flog2 q + 1)%Z by lia. exact U.
Qed.

Lemma rne_range (x : Q) :
  2 ^ 52 <= x -> x < 2 ^ 53 -> (2 ^ 52 <= rne x <= 2 ^ 53)%Z.
Proof.
  intros L U. split.
  - rewrite <- (rne_Z (2 ^ 52)). apply rne_mono.
    rewrite (pow2_inject 52) by lia. exact L.
  - rewrite <- (rne_Z (2 ^ 53)). apply rne_mono.
    rewrite (pow2_inject 53) by lia. lra.
Qed.

Lemma bpos_range (q : Q) :
  0 < q ->
  2 ^ flog2 q <= bpos q /\ bpos q <= 2 ^ (flog2 q + 1).
Proof.
  intros Hq. destruct (scaled_range q Hq) as [L U].
  destruct (rne_range _ L U) as [ML MU].
  pose proof (pow2_pos (flog2 q - 52)) as Hp.
  unfold bpos. split.
  - replace (flog2 q) with (52 + (flog2 q - 52))%Z at 1 by lia.
    rewrite pow2_add. apply Qmult_le_r; [exact Hp |].
    rewrite <- (pow2_inject 52) by lia. rewrite <- Zle_Qle. exact ML.
  - replace (flog2 q + 1)%Z with (53 + (flog2 q - 52))%Z by lia.
    rewrite pow2_add. apply Qmult_le_r; [exact Hp |].
    rewrite <- (pow2_inject 53) by lia. rewrite <- Zle_Qle. exact MU.
Qed.

Lemma bpos_pos (q : Q) : 0 < q -> 0 < bpos q.
Proof.
  intros Hq. destruct (bpos_range q Hq) as [L _].
  pose proof (pow2_pos (flog2 q)). lra.
Qed.

Lemma bpos_mono (a b : Q) : 0 < a -> a <= b -> bpos a <= bpos b.
Proof.
  intros Ha Hab.
  pose proof (flog2_mono a b Ha Hab) as He.
  destruct (Z.eq_dec (flog2 a) (flog2 b)) as [E | E].
  - unfold bpos. rewrite E.
    pose proof (pow2_pos (flog2 b - 52)) as Hp.
    apply Qmult_le_r; [exact Hp |].
    rewrite <- Zle_Qle. apply rne_mono.
    apply Qle_shift_div_l; [exact Hp |].
    assert (X : a / 2 ^ (flog2 b - 52) * 2 ^ (flog2 b - 52) == a)
      by (field; lra).
    rewrite X. exact Hab.
  - destruct (bpos_range a Ha) as [_ Ua].
    destruct (bpos_range b ltac:(lra)) as [Lb _].
    pose proof (pow2_le (flog2 a + 1) (flog2 b) ltac:(lia)). lra.
Qed.

Lemma bpos_compat (a b : Q) : 0 < a -> a == b -> bpos a == bpos b.
Proof.
  intros Ha E. apply Qle_antisym; apply bpos_mono; lra.
Qed.

(** A number with a significand of at most 53 bits is its own rounding. *)
Lemma bpos_float (m e : Z) :
  (2 ^ 52 <= m <= 2 ^ 53)%Z ->
  bpos (inject_Z m * 2 ^ e) == inject_Z m * 2 ^ e.
Proof.
  intros [ML MU].
  pose proof (pow2_pos e) as Hp.
  assert (QL : 2 ^ 52 <= inject_Z m)
    by (rewrite <- (pow2_inject 52) by lia; rewrite <- Zle_Qle; exact ML).
  assert (QU : inject_Z m <= 2 ^ 53)
    by (rewrite <- (pow2_inject 53) by lia; rewrite <- Zle_Qle; exact MU).
  destruct (Z.eq_dec m (2 ^ 53)) as [E | E].
  - assert (Ey : inject_Z m * 2 ^ e == 2 ^ (e + 53)).
    { rewrite E, (pow2_inject 53) by lia. rewrite pow2_add. ring. }
    assert (Hy : 0 < inject_Z m * 2 ^ e)
      by (rewrite Ey; apply pow2_pos).
    rewrite (bpos_compat _ _ Hy Ey). rewrite Ey.
    assert (Ef : flog2 (2 ^ (e + 53)) = (e + 53)%Z).
    { apply flog2_unique; [apply Qle_refl |].
      apply Qpower_lt_compat_l; [lia | reflexivity]. }
    unfold bpos. rewrite Ef.
    assert (X : 2 ^ (e + 53) / 2 ^ (e + 53 - 52) == inject_Z (2 ^ 52)).
    { rewrite pow2_div.
      replace (e + 53 - (e + 53 - 52))%Z with 52%Z by lia.
      rewrite (pow2_inject 52) by lia. reflexivity. }
    rewrite (rne_compat _ _ X), rne_Z.
    rewrite (pow2_inject 52) by lia. rewrite <- pow2_add.
    replace (52 + (e + 53 - 52))%Z with (e + 53)%Z by lia. reflexivity.
  - assert (QU' : inject_Z m < 2 ^ 53).
    { rewrite <- (pow2_inject 53) by lia. rewrite <- Zlt_Qlt. lia. }
    assert (Ef : flog2 (inject_Z m * 2 ^ e) = (e + 52)%Z).
    { apply flog2_unique.
      - rewrite Z.add_comm, pow2_add. apply Qmult_le_r; assumption.
      - replace (e + 52 + 1)%Z with (53 + e)%Z by lia. rewrite pow2_add.
        apply Qmult_lt_r; assumption. }
    unfold bpos. rewrite Ef.
    replace (e + 52 - 52)%Z with e by lia.
    assert (X : inject_Z m * 2 ^ e / 2 ^ e == inject_Z m) by (field; lra).
    rewrite (rne_compat _ _ X), rne_Z. reflexivity.
Qed.

Lemma bpos_idem (q : Q) : 0 < q -> bpos (bpos q) == bpos q.
Proof.
  intros Hq. destruct (scaled_range q Hq) as [L U].
  unfold bpos at 2 3. apply bpos_float. apply rne_range; assumption.
Qed.

(** *** The rounding *)

Lemma b64_of_pos (q : Q) : 0 < q -> b64 q == bpos q.
Proof.
  intros Hq. unfold b64.
  assert (E : Qeq_bool q 0 = false) by (apply Qeq_bool_false; lra).
  rewrite E. cbv zeta.
  assert (Ea : flog2 (Qabs q) = flog2 q).
  { apply flog2_compat.
    - rewrite Qabs_pos by lra. exact Hq.
    - apply Qabs_pos. lra. }
  rewrite Ea. reflexivity.
Qed.

Lemma b64_of_neg (q : Q) : q < 0 -> b64 q == - bpos (- q).
Proof.
  intros Hq. unfold b64.
  assert (E : Qeq_bool q 0 = false) by (apply Qeq_bool_false; lra).
  rewrite E. cbv zeta.
  assert (Ea : flog2 (Qabs q) = flog2 (- q)).
  { apply flog2_compat.
    - rewrite Qabs_neg by lra. lra.
    - apply Qabs_neg. lra. }
  rewrite Ea. unfold bpos.
  pose proof (pow2_pos (flog2 (- q) - 52)) as Hp.
  assert (X : q / 2 ^ (flog2 (- q) - 52)
              == - (- q / 2 ^ (flog2 (- q) - 52))) by (field; lra).
  rewrite (rne_compat _ _ X), rne_opp, inject_Z_opp. ring.
Qed.

Lemma b64_of_zero (q : Q) : q == 0 -> b64 q = 0.
Proof.
  intros Hq. unfold b64. apply Qeq_bool_iff in Hq. rewrite Hq. reflexivity.
Qed.

Lemma b64_mono (a b : Q) : a <= b -> b64 a <= b64 b.
Proof.
  intros Hab.
  destruct (Q_dec a 0) as [[Ha | Ha] | Ha];
    destruct (Q_dec b 0) as [[Hb | Hb] | Hb]; try (exfalso; lra).
  - rewrite (b64_of_neg a Ha), (b64_of_neg b Hb).
    pose proof (bpos_mono (- b) (- a) ltac:(lra) ltac:(lra)). lra.
  - rewrite (b64_of_neg a Ha), (b64_of_pos b Hb).
    pose proof (bpos_pos (- a) ltac:(lra)). pose proof (bpos_pos b Hb). lra.
  - rewrite (b64_of_neg a Ha), (b64_of_zero b Hb).
    pose proof (bpos_pos (- a) ltac:(lra)). lra.
  - rewrite (b64_of_pos a Ha), (b64_of_pos b Hb).
    apply bpos_mono; assumption.
  - rewrite (b64_of_zero a Ha), (b64_of_pos b Hb).
    pose proof (bpos_pos b Hb). lra.
  - rewrite (b64_of_zero a Ha), (b64_of_zero b Hb). lra.
Qed.

Lemma b64_compat (a b : Q) : a == b -> b64 a == b64 b.
Proof. intros E. apply Qle_antisym; apply b64_mono; lra. Qed.

Lemma b64_odd (a : Q) : b64 (- a) == - b64 a.
Proof.
  destruct (Q_dec a 0) as [[Ha | Ha] | Ha].
  - rewrite (b64_of_neg a Ha), (b64_of_pos (- a)) by lra. ring.
  - rewrite (b64_of_pos a Ha), (b64_of_neg (- a)) by lra.
    rewrite (bpos_compat (- - a) a); [reflexivity | lra | ring].
  - rewrite (b64_of_zero a Ha), (b64_of_zero (- a)) by lra. reflexivity.
Qed.

Lemma b64_pos (a : Q) : 0 < a -> 0 < b64 a.
Proof. intros Ha. rewrite (b64_of_pos a Ha). apply bpos_pos. exact Ha. Qed.

Lemma b64_idem (a : Q) : b64 (b64 a) == b64 a.
Proof.
  assert (P : forall q, 0 < q -> b64 (b64 q) == b64 q).
  { intros q Hq.
    rewrite (b64_compat _ _ (b64_of_pos q Hq)).
    rewrite (b64_of_pos _ (bpos_pos q Hq)), (b64_of_pos q Hq).
    apply bpos_idem. exact Hq. }
  destruct (Q_dec a 0) as [[Ha | Ha] | Ha].
  - assert (E : a == - - a) by ring.
    rewrite (b64_compat _ _ (b64_compat _ _ E)), (b64_compat _ _ E).
    rewrite (b64_compat _ _ (b64_odd (- a))), b64_odd.
    rewrite (b64_odd (- a)). rewrite (P (- a)) by lra. reflexivity.
  - apply P. exact Ha.
  - rewrite (b64_of_zero a Ha). reflexivity.
Qed.

Lemma b64_one : b64 1 == 1.
Proof. vm_compute. reflexivity. Qed.

Lemma b64_eps : 0 < b64 0.001.
Proof. vm_compute. reflexivity. Qed.

Lemma fold_fadd_pos (s : Series) :
  forall acc, 0 < acc -> (forall a, In a s -> 0 < a) ->
  0 < fold_left (fadd b64) s acc.
Proof.
  induction s as [| a t IH]; intros acc Hacc Hs; simpl; [exact Hacc |].
  apply IH.
  - unfold fadd. apply b64_pos.
    pose proof (Hs a (or_introl eq_refl)). lra.
  - intros c Hc. apply Hs. right. exact Hc.
Qed.

Lemma fsum_left_pos (s : Series) :
  s <> [] -> (forall a, In a s -> 0 < a) -> 0 < fsum_left b64 s.
Proof.
  intros Hne Hs. destruct s as [| a t]; [congruence |].
  unfold fsum_left. simpl. apply fold_fadd_pos.
  - unfold fadd. apply b64_pos.
    pose proof (Hs a (or_introl eq_refl)). lra.
  - intros c Hc. apply Hs. right. exact Hc.
Qed.

(** Two computations of CPython: [0.3 + (-3 * 0.1)] is [-2 ** -54], and
    [2.1 / (2.999 + 0.001)] is [0.7000000000000001], above the float
    [0.7]. *)
Lemma b64_cancellation :
  fadd b64 (b64 0.3) (fmul b64 (-3) (b64 0.1)) == - (1 # 2 ^ 54).
Proof. vm_compute. reflexivity. Qed.

Lemma b64_threshold :
  fdiv b64 (b64 2.1) (fadd b64 (b64 2.999) (lit b64 0.001))
  = Ok (b64 (b64 2.1 / fadd b64 (b64 2.999) (lit b64 0.001)))
  /\ b64 (b64 2.1 / fadd b64 (b64 2.999) (lit b64 0.001))
     == 6305039478318695 # 2 ^ 53
  /\ lit b64 0.7 < b64 (b64 2.1 / fadd b64 (b64 2.999) (lit b64 0.001)).
Proof.
  split; [| split].
  - apply fdiv_ok. vm_compute. discriminate.
  - vm_compute. reflexivity.
  - vm_compute. reflexivity.
Qed.

(** *** Runs in binary64 *)

Lemma apply_attraction_pull_witness :
  let value := fun r => rule_of_40 (metrics r) in
  let w := weight_of_fl b64 value near_threshold in
  let A := attractors_fl b64 value near_threshold in
  let cx := centroid_fl b64 (fsum_left b64) w x A in
  let cy := centroid_fl b64 (fsum_left b64) w y A in
  (exists out,
     apply_attraction_fl b64 (fsum_left b64) near_threshold "value"
                         (b64 0.03) = Ok out
     /\ Forall2
          (fun r r' =>
             vx r' = fadd b64 (vx r)
                       (fmul b64 (fmul b64 (fsub b64 cx (x r)) (b64 0.03))
                                 (fsub b64 1 (w r)))
             /\ vy r' = fadd b64 (vy r)
                          (fmul b64 (fmul b64 (fsub b64 cy (y r)) (b64 0.03))
                                    (fsub b64 1 (w r))))
          near_threshold out)
  /\ (exists out,
        apply_attraction_fl b64 (fsum_left b64) sample_particles "growth"
                            (b64 0.03) = Ok out)
  /\ (exists out,
        apply_attraction_fl b64 (fsum_left b64) sample_particles "profit"
                            (b64 0.03) = Ok out)
  /\ (exists out,
        apply_attraction_fl b64 (fsum_left b64) sample_particles "size"
                            (b64 0.03) = Ok out).
Proof.
  intros value w A cx cy.
  split; [| split; [| split]].
  - destruct (apply_attraction_pull b64 (fsum_left b64) b64_mono b64_idem
                b64_odd b64_eps fsum_left_pos near_threshold "value"
                (b64 0.03) value) as [out [Hout [Hne _]]].
    { left. reflexivity. }
    exists out. split; [exact Hout |].
    apply Hne. vm_compute. discriminate.
  - destruct (apply_attraction_pull b64 (fsum_left b64) b64_mono b64_idem
                b64_odd b64_eps fsum_left_pos sample_particles "growth"
                (b64 0.03) (fun r => revenue_growth (metrics r)))
      as [out [Hout _]].
    { right. left. reflexivity. }
    exists out. exact Hout.
  - destruct (apply_attraction_pull b64 (fsum_left b64) b64_mono b64_idem
                b64_odd b64_eps fsum_left_pos sample_particles "profit"
                (b64 0.03) (fun r => operating_margin (metrics r)))
      as [out [Hout _]].
    { right. right. left. reflexivity. }
    exists out. exact Hout.
  - destruct (apply_attraction_pull b64 (fsum_left b64) b64_mono b64_idem
                b64_odd b64_eps fsum_left_pos sample_particles "size"
                (b64 0.03) (fun r => market_cap (metrics r)))
      as [out [Hout _]].
    { right. right. right. left. reflexivity. }
    exists out. exact Hout.
Defined.

Lemma update_positions_bounce_witness :
  let slow := particle AAPL 0.5 (b64 (1 # 10 ^ 15)) 0 95 50 in
  let fast := particle AAPL 0.5 2 0 95 50 in
  let out := update_positions_fl b64 [slow; fast] (b64 0.3)
                                 (5, 95, 5, 95) in
  exists r1 r2,
    nth_error out 0 = Some r1 /\ nth_error out 1 = Some r2
    /\ x r1 == 95 /\ vx r1 = damped b64 (vx slow)
    /\ x r2 == 95 /\ vx r2 = bounced b64 (vx fast) (elasticity fast)
    /\ Qabs (vx r1) <= Qabs (vx slow) /\ Qabs (vx r2) <= Qabs (vx fast).
Proof.
  intros slow fast out.
  pose proof (update_positions_bounce b64 b64_mono b64_idem b64_odd b64_one
                [slow; fast] (b64 0.3) 5 95 5 95) as H.
  destruct (Forall2_nth_error _ _ _ 0%nat slow H eq_refl)
    as [r1 [Hn1 [Hw1 Hs1]]].
  destruct (Forall2_nth_error _ _ _ 1%nat fast H eq_refl)
    as [r2 [Hn2 [Hw2 Hs2]]].
  assert (P1 : (5 : Q) < 95) by reflexivity.
  assert (P2 : representable b64 95) by (vm_compute; reflexivity).
  assert (P3 : 0 < b64 0.3) by (vm_compute; reflexivity).
  assert (P4 : 0 <= elasticity slow) by (vm_compute; discriminate).
  assert (P5 : elasticity slow <= 1) by (vm_compute; discriminate).
  assert (P6 : representable b64 (vx slow)) by (vm_compute; reflexivity).
  assert (P7 : representable b64 (vx fast)) by (vm_compute; reflexivity).
  assert (P8 : representable b64 0) by (vm_compute; reflexivity).
  destruct (Hw1 P1 P2 P3) as [Hx1 [_ Hd1]];
    [reflexivity | vm_compute; reflexivity |].
  destruct (Hw2 P1 P2 P3) as [Hx2 [Hb2 _]];
    [reflexivity | vm_compute; reflexivity |].
  destruct (Hs1 P4 P5 P6 P8) as [Ha1 _].
  destruct (Hs2 P4 P5 P7 P8) as [Ha2 _].
  exists r1, r2.
  split; [exact Hn1 |]. split; [exact Hn2 |].
  split; [exact Hx1 |].
  split; [apply Hd1; vm_compute; discriminate |].
  split; [exact Hx2 |].
  split; [apply Hb2; vm_compute; reflexivity |].
  split; assumption.
Defined.

Lemma update_positions_cases_witness :
  let p := particle TSLA 0.95 (-3) 0 (b64 0.3) 50 in
  let out := update_positions_fl b64 [p] (b64 0.1) (0, 100, 0, 100) in
  exists r',
    nth_error out 0 = Some r'
    /\ x r' = 0 /\ vx r' = bounced b64 (vx p) (elasticity p)
    /\ y r' = moved b64 (y p) (vy p) (b64 0.1) /\ vy r' = damped b64 (vy p).
Proof.
  intros p out.
  assert (Hx : (0 : Q) <= 100) by (vm_compute; discriminate).
  pose proof (update_positions_cases b64 [p] (b64 0.1) 0 100 0 100 Hx Hx)
    as H.
  destruct (Forall2_nth_error _ _ _ 0%nat p H eq_refl)
    as [r' [Hn (_ & Hlo & _ & Hy & _)]].
  exists r'. split; [exact Hn |].
  destruct Hlo as [H1 H2]; [vm_compute; reflexivity |].
  destruct Hy as [H3 H4]; [vm_compute; discriminate .. |].
  repeat split; assumption.
Defined.

Lemma apply_attraction_toward_centroid_witness :
  let value := fun r => rule_of_40 (metrics r) in
  let w := weight_of_fl b64 value near_threshold in
  let A := attractors_fl b64 value near_threshold in
  exists out,
    apply_attraction_fl b64 (fsum_left b64) near_threshold "value"
                        (b64 0.03) = Ok out
    /\ Forall2
         (fun r r' =>
            0 <= (vx r' - vx r)
                 * (centroid_fl b64 (fsum_left b64) w x A - x r)
            /\ 0 <= (vy r' - vy r)
                    * (centroid_fl b64 (fsum_left b64) w y A - y r))
         near_threshold out.
Proof.
  apply (apply_attraction_toward_centroid b64 (fsum_left b64) b64_mono
           b64_idem b64_odd b64_one b64_eps fsum_left_pos near_threshold
           "value" (b64 0.03) (fun r => rule_of_40 (metrics r))).
  - left. reflexivity.
  - vm_compute. discriminate.
  - intros r [<- | [<- | [<- | []]]]; split; vm_compute; reflexivity.
Defined.

Lemma attractors_nonempty_iff_witness :
  let value := fun r => rule_of_40 (metrics r) in
  exists r,
    In r near_threshold
    /\ value r = col_max (col value near_threshold)
    /\ lit b64 0.7 < weight_of_fl b64 value near_threshold r.
Proof.
  intros value.
  apply (attractors_nonempty_iff b64 (fsum_left b64) b64_mono b64_idem
           b64_odd b64_eps fsum_left_pos value near_threshold).
  vm_compute. discriminate.
Defined.

Lemma update_positions_fl_in_bounds_witness :
  Forall2
    (fun r r' => metrics r' = metrics r /\ in_bounds (0, 100, 0, 100) r')
    [particle TSLA 0.95 (-3) 0 (b64 0.3) 50]
    (update_positions_fl b64 [particle TSLA 0.95 (-3) 0 (b64 0.3) 50]
                         (b64 0.1) (0, 100, 0, 100)).
Proof.
  apply (update_positions_fl_in_bounds b64); vm_compute; discriminate.
Defined.

Lemma weight_column_table_witness :
  apply_attraction sample_particles "none" 0.03 = Ok sample_particles
  /\ apply_attraction_fl b64 (fsum_left b64) sample_particles "none"
                         0.03 = Ok sample_particles.
Proof.
  apply (proj2 (weight_column_table b64 (fsum_left b64) "none")).
  reflexivity.
Defined.
